(** * Exiv2 slices (include/exiv2/slice.hpp): bounds-checked views

    A shallow embedding of [Exiv2::Internal::SliceBase], of the two
    [Exiv2::Slice] specialisations (STL container and C array) and of
    the [makeSlice] helpers, followed by the properties the
    specification states about them.

    - [size_t] is a [Z] in [0, SIZE_MAX]; every addition and subtraction
      the source performs on it is written with its wrap-around.
    - A C++ exception is its class together with its [what()] string.
    - Containers and C arrays live in a store: a finite map from object
      identities to element sequences.  A [container&] is an object
      identity, a [T*] is null or points at an element position, a
      [value_type&] is an element position. *)

From Stdlib Require Import ZArith String List Lia Bool.
From stdpp Require Import base option list gmap.

Local Open Scope Z_scope.

(** ** [size_t] *)

Definition SIZE_MAX : Z := 18446744073709551615.

Definition is_size_t (x : Z) : Prop := 0 <= x <= SIZE_MAX.

(** Unsigned arithmetic is performed modulo [SIZE_MAX + 1]. *)
Definition size_t_wrap (x : Z) : Z := x mod (SIZE_MAX + 1).

(** ** Exceptions and outcomes *)

Inductive exception : Type :=
| out_of_range (what : string)
| invalid_argument (what : string).

(** What evaluating an expression can do: yield a value, leave by an
    exception, or have no defined behaviour (a dangling reference, an
    access outside an array). *)
Inductive outcome (A : Type) : Type :=
| Ok (a : A)
| Throw (e : exception)
| Undefined.

Arguments Ok {A} a.
Arguments Throw {A} e.
Arguments Undefined {A}.

(** ** Internal::SliceBase *)

Module Internal.

(** [const size_t begin_, end_;] *)
Record SliceBase : Type := { begin_ : Z; end_ : Z }.

(** [SliceBase(size_t begin, size_t end)] *)
Definition SliceBase_ctor (begin end' : Z) : outcome SliceBase :=
  if begin >=? end' then Throw (out_of_range "Begin must be smaller than end")
  else Ok {| begin_ := begin; end_ := end' |}.

(** [size()]: [end_ - begin_] *)
Definition size (s : SliceBase) : Z := size_t_wrap (end_ s - begin_ s).

(** [rangeCheck(index)] *)
Definition rangeCheck (s : SliceBase) (index : Z) : outcome unit :=
  if index >=? size s then Throw (out_of_range "Index outside of the slice")
  else Ok tt.

(** [calculateSubSliceBounds(begin, end)]: the two reference parameters
    are returned as a pair. *)
Definition calculateSubSliceBounds (s : SliceBase) (begin end' : Z) : outcome (Z * Z) :=
  if (begin >=? size s) || (end' >? size s)
  then Throw (out_of_range "sub-Slice index out of range")
  else
    let begin := size_t_wrap (begin + begin_ s) in
    let end' := size_t_wrap (end' + begin_ s) in
    if end' >? end_ s
    then Throw (out_of_range "sub-Slice index out of range")
    else Ok (begin, end').

End Internal.

(** ** The store: containers, arrays, references and pointers *)

(** An element position: the [pos]-th element of the sequence held by
    object [obj].  It models a [value_type&], a container iterator and
    the target of a non-null [T*]. *)
Record place : Type := { obj : positive; pos : Z }.

Inductive pointer : Type :=
| nullptr
| pointer_to (p : place).

(** The [what()] of the [std::out_of_range] that the container's own
    [at()] raises is chosen by the C++ standard library in use. *)
Class StdLib : Type := { container_what : string }.

Section Store.
Context {T : Type}.

(** Computations that read and write the store and may throw. *)
Definition M (A : Type) : Type :=
  gmap positive (list T) -> outcome A * gmap positive (list T).

Definition ret {A : Type} (a : A) : M A := fun m => (Ok a, m).

Definition bind {A B : Type} (c : M A) (k : A -> M B) : M B :=
  fun m =>
    match c m with
    | (Ok a, m') => k a m'
    | (Throw e, m') => (Throw e, m')
    | (Undefined, m') => (Undefined, m')
    end.

Definition lift {A : Type} (o : outcome A) : M A := fun m => (o, m).

(** Reading through a reference. *)
Definition load (p : place) : M T :=
  fun m =>
    match m !! obj p with
    | Some l =>
        if 0 <=? pos p then
          match l !! Z.to_nat (pos p) with
          | Some x => (Ok x, m)
          | None => (Undefined, m)
          end
        else (Undefined, m)
    | None => (Undefined, m)
    end.

(** Assigning through a reference. *)
Definition assign (p : place) (x : T) : M unit :=
  fun m =>
    match m !! obj p with
    | Some l =>
        if (0 <=? pos p) && (pos p <? Z.of_nat (length l))
        then (Ok tt, <[obj p := <[Z.to_nat (pos p) := x]> l]> m)
        else (Undefined, m)
    | None => (Undefined, m)
    end.

(** The element at position [n] of object [c], if there is one. *)
Definition element (m : gmap positive (list T)) (c : positive) (n : nat) : option T :=
  match m !! c with
  | Some l => l !! n
  | None => None
  end.

(** [cont.size()] of an STL sequence container. *)
Definition cont_size (c : positive) : M Z :=
  fun m =>
    match m !! c with
    | Some l => (Ok (Z.of_nat (length l)), m)
    | None => (Undefined, m)
    end.

(** [cont.at(n)]: the container's own checked access. *)
Definition cont_at `{StdLib} (c : positive) (n : Z) : M place :=
  fun m =>
    match m !! c with
    | Some l =>
        if n <? Z.of_nat (length l)
        then (Ok {| obj := c; pos := n |}, m)
        else (Throw (out_of_range container_what), m)
    | None => (Undefined, m)
    end.

(** [cont.begin()] / [cont.cbegin()] and [std::advance(iter, offset)]. *)
Definition cont_begin (c : positive) : place := {| obj := c; pos := 0 |}.

Definition advance (it : place) (offset : Z) : place :=
  {| obj := obj it; pos := pos it + offset |}.

(** [ptr + n] and [ptr[n]] on a C array. *)
Definition ptr_add (p : pointer) (n : Z) : pointer :=
  match p with
  | nullptr => nullptr
  | pointer_to q => pointer_to (advance q n)
  end.

Definition ptr_index (p : pointer) (n : Z) : M place :=
  fun m =>
    match p with
    | nullptr => (Undefined, m)
    | pointer_to q =>
        match m !! obj q with
        | Some l =>
            if (0 <=? pos q + n) && (pos q + n <? Z.of_nat (length l))
            then (Ok (advance q n), m)
            else (Undefined, m)
        | None => (Undefined, m)
        end
    end.

End Store.

Notation "'let*' x ':=' c 'in' k" := (bind c (fun x => k))
  (at level 10, x pattern, c at level 100, k at level 200).

(** ** Slice<container>: views of STL containers *)

Module ContainerSlice.
Section WithElements.
Context {T : Type} `{StdLib}.

(** [struct Slice : Internal::SliceBase] with [container& cont_;] *)
Record Slice : Type := { base :> Internal.SliceBase; cont_ : positive }.

(** [Slice(container& cont, size_t begin, size_t end)] *)
Definition Slice_ctor (cont : positive) (begin end' : Z) : M (T:=T) Slice :=
  let* b := lift (Internal.SliceBase_ctor begin end') in
  let* n := cont_size cont in
  if end' >? n
  then lift (Throw (out_of_range "End must not be larger than the container."))
  else ret {| base := b; cont_ := cont |}.

(** [at(size_t index)], const and non-const overload: both run the
    same two statements and return a reference to the element. *)
Definition at_ (s : Slice) (index : Z) : M (T:=T) place :=
  let* _ := lift (Internal.rangeCheck s index) in
  cont_at (cont_ s) (size_t_wrap (Internal.begin_ s + index)).

(** [begin()], [cbegin()], [end()], [cend()]: the expansion of
    RETURN_ITERATOR(getter_method, offset). *)
Definition begin (s : Slice) : place :=
  advance (cont_begin (cont_ s)) (Internal.begin_ s).

Definition cbegin (s : Slice) : place :=
  advance (cont_begin (cont_ s)) (Internal.begin_ s).

Definition end' (s : Slice) : place :=
  advance (cont_begin (cont_ s)) (Internal.end_ s).

Definition cend (s : Slice) : place :=
  advance (cont_begin (cont_ s)) (Internal.end_ s).

(** [subSlice(size_t begin, size_t end)], const and non-const overload. *)
Definition subSlice (s : Slice) (begin end' : Z) : M (T:=T) Slice :=
  let* be := lift (Internal.calculateSubSliceBounds s begin end') in
  Slice_ctor (cont_ s) (fst be) (snd be).

End WithElements.
End ContainerSlice.

(** ** Slice<T*>: views of C arrays *)

Module PointerSlice.
Section WithElements.
Context {T : Type}.

(** [struct Slice<T*> : Internal::SliceBase] with [T* ptr_;] *)
Record Slice : Type := { base :> Internal.SliceBase; ptr_ : pointer }.

(** [Slice(T* ptr, size_t begin, size_t end)] *)
Definition Slice_ctor (ptr : pointer) (begin end' : Z) : M (T:=T) Slice :=
  let* b := lift (Internal.SliceBase_ctor begin end') in
  match ptr with
  | nullptr => lift (Throw (invalid_argument "ptr must not be null."))
  | pointer_to _ => ret {| base := b; ptr_ := ptr |}
  end.

(** [at(size_t index)], const and non-const overload. *)
Definition at_ (s : Slice) (index : Z) : M (T:=T) place :=
  let* _ := lift (Internal.rangeCheck s index) in
  ptr_index (ptr_ s) (size_t_wrap (Internal.begin_ s + index)).

(** [begin()], [cbegin()], [end()], [cend()]: pointer arithmetic. *)
Definition begin (s : Slice) : pointer := ptr_add (ptr_ s) (Internal.begin_ s).

Definition cbegin (s : Slice) : pointer := ptr_add (ptr_ s) (Internal.begin_ s).

Definition end' (s : Slice) : pointer := ptr_add (ptr_ s) (Internal.end_ s).

Definition cend (s : Slice) : pointer := ptr_add (ptr_ s) (Internal.end_ s).

(** [subSlice(size_t begin, size_t end)], const and non-const overload. *)
Definition subSlice (s : Slice) (begin end' : Z) : M (T:=T) Slice :=
  let* be := lift (Internal.calculateSubSliceBounds s begin end') in
  Slice_ctor (ptr_ s) (fst be) (snd be).

End WithElements.
End PointerSlice.

(** Both specialisations derive from SliceBase. *)
Coercion ContainerSlice.base : ContainerSlice.Slice >-> Internal.SliceBase.
Coercion PointerSlice.base : PointerSlice.Slice >-> Internal.SliceBase.

(** ** makeSlice, makeSliceFrom, makeSliceUntil *)

Section Factories.
Context {T : Type} `{StdLib}.

(** [makeSlice(T& cont, size_t begin, size_t end)] *)
Definition makeSlice (cont : positive) (begin end' : Z) : M (T:=T) ContainerSlice.Slice :=
  ContainerSlice.Slice_ctor cont begin end'.

(** [makeSlice(T* ptr, size_t begin, size_t end)] *)
Definition makeSlice_ptr (ptr : pointer) (begin end' : Z) : M (T:=T) PointerSlice.Slice :=
  PointerSlice.Slice_ctor ptr begin end'.

(** [makeSlice(container& cont)] *)
Definition makeSlice_whole (cont : positive) : M (T:=T) ContainerSlice.Slice :=
  let* n := cont_size cont in
  ContainerSlice.Slice_ctor cont 0 n.

(** [makeSliceFrom(container& cont, size_t begin)] *)
Definition makeSliceFrom (cont : positive) (begin : Z) : M (T:=T) ContainerSlice.Slice :=
  let* n := cont_size cont in
  ContainerSlice.Slice_ctor cont begin n.

(** [makeSliceUntil(container& cont, size_t end)] *)
Definition makeSliceUntil (cont : positive) (end' : Z) : M (T:=T) ContainerSlice.Slice :=
  ContainerSlice.Slice_ctor cont 0 end'.

(** [makeSliceUntil(T* ptr, size_t end)] *)
Definition makeSliceUntil_ptr (ptr : pointer) (end' : Z) : M (T:=T) PointerSlice.Slice :=
  PointerSlice.Slice_ctor ptr 0 end'.

End Factories.

(** ** Traversal from a begin iterator to an end iterator *)

(** What the range-based [for] uses of an iterator type: [operator==]
    (its negation is [!=]), [operator++] and [operator*]. *)
Class Iterator (T I : Type) : Type := {
  it_eqb : I -> I -> bool;
  it_incr : I -> I;
  it_deref : I -> M (T:=T) place
}.

Definition place_eqb (a b : place) : bool :=
  Pos.eqb (obj a) (obj b) && (pos a =? pos b).

Definition pointer_eqb (a b : pointer) : bool :=
  match a, b with
  | nullptr, nullptr => true
  | pointer_to p, pointer_to q => place_eqb p q
  | _, _ => false
  end.

(** Container iterators and pointers are dereferenced like [ptr[0]]. *)
#[export] Instance container_iterator {T : Type} : Iterator T place := {|
  it_eqb := place_eqb;
  it_incr := fun it => advance it 1;
  it_deref := fun it => ptr_index (pointer_to it) 0
|}.

#[export] Instance pointer_iterator {T : Type} : Iterator T pointer := {|
  it_eqb := pointer_eqb;
  it_incr := fun p => ptr_add p 1;
  it_deref := fun p => ptr_index p 0
|}.

(** [for (auto it = first; it != last; ++it) { auto& elem = *it; ... }]
    where the visited elements are collected in order.  [None]: the loop is still
    running when the fuel is used up. *)
Fixpoint range_for {T I : Type} `{Iterator T I} (fuel : nat) (it last : I)
    (m : gmap positive (list T)) : option (outcome (list T) * gmap positive (list T)) :=
  if it_eqb it last then Some (Ok [], m)
  else
    match fuel with
    | O => None
    | S fuel' =>
        match (let* r := it_deref it in load r) m with
        | (Ok x, m') =>
            match range_for fuel' (it_incr it) last m' with
            | Some (Ok xs, m'') => Some (Ok (x :: xs), m'')
            | stopped => stopped
            end
        | (Throw e, m') => Some (Throw e, m')
        | (Undefined, m') => Some (Undefined, m')
        end
    end.

(** ** The life of a view: member calls made one after the other *)

Inductive call (T : Type) : Type :=
| call_at (index : Z)
| call_at_assign (index : Z) (x : T)
| call_subSlice (begin end' : Z)
| call_range_for (fuel : nat).

Arguments call_at {T} index.
Arguments call_at_assign {T} index x.
Arguments call_subSlice {T} begin end'.
Arguments call_range_for {T} fuel.

(** One call on the view [v]: [x = v.at(index)], [v.at(index) = x],
    [v.subSlice(begin, end)] or [for (auto& elem : v)].  The value the
    call yields is dropped; what remains is how it ended and the store
    it leaves. *)
Definition perform {T : Type} `{StdLib} (v : ContainerSlice.Slice) (c : call T)
    (m : gmap positive (list T)) : option (outcome unit * gmap positive (list T)) :=
  match c with
  | call_at index =>
      Some ((let* r := ContainerSlice.at_ v index in let* _ := load r in ret tt) m)
  | call_at_assign index x =>
      Some ((let* r := ContainerSlice.at_ v index in assign r x) m)
  | call_subSlice begin end' =>
      Some ((let* _ := ContainerSlice.subSlice v begin end' in ret tt) m)
  | call_range_for fuel =>
      match range_for fuel (ContainerSlice.begin v) (ContainerSlice.end' v) m with
      | Some (Ok _, m') => Some (Ok tt, m')
      | Some (Throw e, m') => Some (Throw e, m')
      | Some (Undefined, m') => Some (Undefined, m')
      | None => None
      end
  end.

(** The calls of a caller that catches every exception and goes on. *)
Fixpoint run {T : Type} `{StdLib} (v : ContainerSlice.Slice) (calls : list (call T))
    (m : gmap positive (list T)) : option (list (outcome unit) * gmap positive (list T)) :=
  match calls with
  | [] => Some ([], m)
  | c :: calls' =>
      match perform v c m with
      | Some (o, m') =>
          match run v calls' m' with
          | Some (os, m'') => Some (o :: os, m'')
          | None => None
          end
      | None => None
      end
  end.

(** A call on a view of [n] elements whose arguments are values of
    [size_t] and whose traversal is given the steps it needs. *)
Definition call_ok {T : Type} (n : Z) (c : call T) : Prop :=
  match c with
  | call_at index => is_size_t index
  | call_at_assign index _ => is_size_t index
  | call_subSlice begin end' => is_size_t begin /\ is_size_t end'
  | call_range_for fuel => n <= Z.of_nat fuel
  end.

(** ** Examples from the documentation of [Slice] *)

Definition libstdcxx : StdLib := {| container_what := "vector::_M_range_check" |}.

(** [std::vector<int> vec = {0, 1, 2, 3, 4};] as object 1 of a store. *)
Definition vec_store : gmap positive (list Z) := {[ 1%positive := [0; 1; 2; 3; 4] ]}.

Definition one_two : ContainerSlice.Slice :=
  {| ContainerSlice.base := {| Internal.begin_ := 1; Internal.end_ := 3 |};
     ContainerSlice.cont_ := 1%positive |}.

Definition three_four : ContainerSlice.Slice :=
  {| ContainerSlice.base := {| Internal.begin_ := 3; Internal.end_ := 5 |};
     ContainerSlice.cont_ := 1%positive |}.

(** [int* data = vec.data();] and the pointer view of [data[1], data[2]]. *)
Definition vec_data : pointer := pointer_to {| obj := 1%positive; pos := 0 |}.

Definition ptr_one_two : PointerSlice.Slice :=
  {| PointerSlice.base := {| Internal.begin_ := 1; Internal.end_ := 3 |};
     PointerSlice.ptr_ := vec_data |}.

(** [std::vector<int> none;] as object 1 of a store. *)
Definition empty_vec_store : gmap positive (list Z) := {[ 1%positive := [] ]}.

(** The calls of the documentation's first example, then a failing
    [at], a [subSlice] and a traversal. *)
Definition example_calls : list (call Z) :=
  [call_at 0; call_at_assign 0 2; call_at_assign 1 6; call_at 2;
   call_subSlice 0 1; call_subSlice 1 0; call_range_for 2].

(** A second view of the same vector, [vec[2], vec[3]], overlapping
    [one_two] in [vec[2]]. *)
Definition two_four : ContainerSlice.Slice :=
  {| ContainerSlice.base := {| Internal.begin_ := 2; Internal.end_ := 4 |};
     ContainerSlice.cont_ := 1%positive |}.

(** The view of the whole vector and the pointer view of the same
    elements. *)
Definition whole_vec : ContainerSlice.Slice :=
  {| ContainerSlice.base := {| Internal.begin_ := 0; Internal.end_ := 5 |};
     ContainerSlice.cont_ := 1%positive |}.

Definition ptr_whole_vec : PointerSlice.Slice :=
  {| PointerSlice.base := {| Internal.begin_ := 0; Internal.end_ := 5 |};
     PointerSlice.ptr_ := vec_data |}.

(** The store after [vec.resize(2)]. *)
Definition shrunk_vec_store : gmap positive (list Z) := {[ 1%positive := [0; 1] ]}.

(** ** The error kinds of the specification

    Each [throw] of slice.hpp, recognised by exception class and
    message, and the kind under which the specification reports it. *)

Inductive error_kind : Type := InvalidRange | IndexOutOfRange | NullPointer.

Definition error_kind_eqb (a b : error_kind) : bool :=
  match a, b with
  | InvalidRange, InvalidRange => true
  | IndexOutOfRange, IndexOutOfRange => true
  | NullPointer, NullPointer => true
  | _, _ => false
  end.

Definition error_kind_of (e : exception) : option error_kind :=
  match e with
  | out_of_range w =>
      if String.eqb w "Index outside of the slice" then Some IndexOutOfRange
      else if String.eqb w "Begin must be smaller than end"
              || String.eqb w "End must not be larger than the container."
              || String.eqb w "sub-Slice index out of range"
      then Some InvalidRange
      else None
  | invalid_argument w =>
      if String.eqb w "ptr must not be null." then Some NullPointer else None
  end.

Definition fails_with {A : Type} (k : error_kind) (o : outcome A) : bool :=
  match o with
  | Throw e =>
      match error_kind_of e with
      | Some k' => error_kind_eqb k k'
      | None => false
      end
  | _ => false
  end.

Definition succeeds {A : Type} (o : outcome A) : bool :=
  match o with
  | Ok _ => true
  | _ => false
  end.

(** ** Views that fit their store *)

(** The bounds are values of [size_t] with [begin_ < end_]. *)
Definition bounds_ok (s : Internal.SliceBase) : Prop :=
  is_size_t (Internal.begin_ s) /\ is_size_t (Internal.end_ s) /\
  Internal.begin_ s < Internal.end_ s.

(** The container referenced by the view holds [l], of at least [end_]
    elements. *)
Definition in_bounds {T : Type} (m : gmap positive (list T))
    (v : ContainerSlice.Slice) (l : list T) : Prop :=
  bounds_ok v /\
  m !! ContainerSlice.cont_ v = Some l /\
  Internal.end_ v <= Z.of_nat (length l).

(** The pointer of the view points at element [pos q] of an array
    holding [l], and [ptr + end_] is still inside that array: what the
    caller of the pointer constructor has to guarantee. *)
Definition in_array {T : Type} (m : gmap positive (list T))
    (w : PointerSlice.Slice) (q : place) (l : list T) : Prop :=
  bounds_ok w /\
  PointerSlice.ptr_ w = pointer_to q /\
  m !! obj q = Some l /\
  0 <= pos q /\ pos q + Internal.end_ w <= Z.of_nat (length l).

(** ** Arithmetic of [size_t] and of SliceBase *)

(** Linear arithmetic with the range of [size_t] in view. *)
Ltac size_t_lia := unfold is_size_t, SIZE_MAX in *; lia.

Lemma size_t_wrap_small (x : Z) : is_size_t x -> size_t_wrap x = x.
Proof.
  unfold is_size_t, size_t_wrap, SIZE_MAX. intros Hx.
  apply Z.mod_small. lia.
Qed.

Lemma size_exact (s : Internal.SliceBase) :
  is_size_t (Internal.begin_ s) -> is_size_t (Internal.end_ s) ->
  Internal.begin_ s < Internal.end_ s ->
  Internal.size s = Internal.end_ s - Internal.begin_ s.
Proof.
  unfold Internal.size. intros Hb He Hlt.
  apply size_t_wrap_small. size_t_lia.
Qed.

Lemma SliceBase_ctor_Ok (begin end' : Z) (s : Internal.SliceBase) :
  Internal.SliceBase_ctor begin end' = Ok s <->
  begin < end' /\ s = {| Internal.begin_ := begin; Internal.end_ := end' |}.
Proof.
  unfold Internal.SliceBase_ctor.
  destruct (Z.geb_spec begin end') as [Hge | Hlt]; split.
  - discriminate.
  - intros [Hlt _]. lia.
  - intros [= <-]. split; [exact Hlt | reflexivity].
  - intros [_ ->]. reflexivity.
Qed.

Lemma SliceBase_ctor_Throw (begin end' : Z) :
  end' <= begin ->
  Internal.SliceBase_ctor begin end' = Throw (out_of_range "Begin must be smaller than end").
Proof.
  unfold Internal.SliceBase_ctor. intros Hge.
  destruct (Z.geb_spec begin end'); [reflexivity | lia].
Qed.

(** Once the first test of [calculateSubSliceBounds] has passed, the
    two additions stay below SIZE_MAX and the second test is false. *)
Lemma calculateSubSliceBounds_passes (s : Internal.SliceBase) (subBegin subEnd : Z) :
  is_size_t (Internal.begin_ s) -> is_size_t (Internal.end_ s) ->
  Internal.begin_ s < Internal.end_ s ->
  is_size_t subBegin -> is_size_t subEnd ->
  subBegin < Internal.size s -> subEnd <= Internal.size s ->
  is_size_t (subBegin + Internal.begin_ s) /\
  is_size_t (subEnd + Internal.begin_ s) /\
  (size_t_wrap (subEnd + Internal.begin_ s) >? Internal.end_ s) = false /\
  Internal.calculateSubSliceBounds s subBegin subEnd
    = Ok (subBegin + Internal.begin_ s, subEnd + Internal.begin_ s).
Proof.
  intros Hb He Hlt Hsb Hse H1 H2.
  rewrite (size_exact s Hb He Hlt) in H1, H2.
  assert (Hwb : is_size_t (subBegin + Internal.begin_ s))
    by size_t_lia.
  assert (Hwe : is_size_t (subEnd + Internal.begin_ s))
    by size_t_lia.
  assert (Hdead : (size_t_wrap (subEnd + Internal.begin_ s) >? Internal.end_ s) = false).
  { rewrite (size_t_wrap_small _ Hwe).
    destruct (Z.gtb_spec (subEnd + Internal.begin_ s) (Internal.end_ s)); [lia | reflexivity]. }
  split; [exact Hwb |]. split; [exact Hwe |]. split; [exact Hdead |].
  unfold Internal.calculateSubSliceBounds.
  rewrite (size_exact s Hb He Hlt).
  destruct (Z.geb_spec subBegin (Internal.end_ s - Internal.begin_ s)); [lia |].
  destruct (Z.gtb_spec subEnd (Internal.end_ s - Internal.begin_ s)); [lia |].
  cbn [orb]. rewrite Hdead.
  rewrite (size_t_wrap_small _ Hwb), (size_t_wrap_small _ Hwe). reflexivity.
Qed.

(** The first test of [calculateSubSliceBounds] rejects. *)
Lemma calculateSubSliceBounds_rejects (s : Internal.SliceBase) (subBegin subEnd : Z) :
  Internal.size s <= subBegin \/ Internal.size s < subEnd ->
  Internal.calculateSubSliceBounds s subBegin subEnd
    = Throw (out_of_range "sub-Slice index out of range").
Proof.
  unfold Internal.calculateSubSliceBounds. intros Hout.
  destruct (Z.geb_spec subBegin (Internal.size s)); [reflexivity |].
  destruct (Z.gtb_spec subEnd (Internal.size s)); [reflexivity | lia].
Qed.

(** C10. In [calculateSubSliceBounds], once the first test has let
    [begin < size()] and [end <= size()] through, neither
    [begin + begin_] nor [end + begin_] exceeds SIZE_MAX, the second
    test [end > end_] is false, and the call returns the two plain
    sums: the second [throw] cannot be reached. *)
Theorem calculateSubSliceBounds_second_throw_unreachable
    (s : Internal.SliceBase) (subBegin subEnd : Z) :
  is_size_t (Internal.begin_ s) -> is_size_t (Internal.end_ s) ->
  Internal.begin_ s < Internal.end_ s ->
  is_size_t subBegin -> is_size_t subEnd ->
  subBegin < Internal.size s -> subEnd <= Internal.size s ->
  subBegin + Internal.begin_ s <= SIZE_MAX /\
  subEnd + Internal.begin_ s <= SIZE_MAX /\
  (size_t_wrap (subEnd + Internal.begin_ s) >? Internal.end_ s) = false /\
  Internal.calculateSubSliceBounds s subBegin subEnd
    = Ok (subBegin + Internal.begin_ s, subEnd + Internal.begin_ s).
Proof.
  intros Hb He Hlt Hsb Hse H1 H2.
  destruct (calculateSubSliceBounds_passes s subBegin subEnd Hb He Hlt Hsb Hse H1 H2)
    as ([_ Hwb] & [_ Hwe] & Hdead & Hres).
  auto.
Qed.

(** ** Construction *)

Section Construction.
Context {T : Type}.
Implicit Types (m : gmap positive (list T)) (c : positive) (ptr : pointer).

(** The container constructor, with its three exits spelled out. *)
Lemma container_ctor_unfold m c (begin end' : Z) :
  ContainerSlice.Slice_ctor c begin end' m =
    if begin >=? end'
    then (Throw (out_of_range "Begin must be smaller than end"), m)
    else
      match m !! c with
      | Some l =>
          if end' >? Z.of_nat (length l)
          then (Throw (out_of_range "End must not be larger than the container."), m)
          else (Ok {| ContainerSlice.base :=
                        {| Internal.begin_ := begin; Internal.end_ := end' |};
                      ContainerSlice.cont_ := c |}, m)
      | None => (Undefined, m)
      end.
Proof.
  unfold ContainerSlice.Slice_ctor, bind, lift, ret, cont_size, Internal.SliceBase_ctor.
  destruct (begin >=? end'); [reflexivity |].
  destruct (m !! c) as [l |]; [| reflexivity].
  destruct (end' >? Z.of_nat (length l)); reflexivity.
Qed.

(** The pointer constructor likewise. *)
Lemma pointer_ctor_unfold m ptr (begin end' : Z) :
  PointerSlice.Slice_ctor ptr begin end' m =
    if begin >=? end'
    then (Throw (out_of_range "Begin must be smaller than end"), m)
    else
      match ptr with
      | nullptr => (Throw (invalid_argument "ptr must not be null."), m)
      | pointer_to _ =>
          (Ok {| PointerSlice.base :=
                   {| Internal.begin_ := begin; Internal.end_ := end' |};
                 PointerSlice.ptr_ := ptr |}, m)
      end.
Proof.
  unfold PointerSlice.Slice_ctor, bind, lift, ret, Internal.SliceBase_ctor.
  destruct (begin >=? end'); [reflexivity |].
  destruct ptr; reflexivity.
Qed.

(** A container view that was constructed: its fields are the
    arguments, [begin < end], and the container holds at least [end]
    elements; the store is not touched. *)
Lemma container_ctor_Ok m m' c (begin end' : Z) (v : ContainerSlice.Slice) :
  ContainerSlice.Slice_ctor c begin end' m = (Ok v, m') ->
  m' = m /\
  v = {| ContainerSlice.base := {| Internal.begin_ := begin; Internal.end_ := end' |};
         ContainerSlice.cont_ := c |} /\
  begin < end' /\
  exists l, m !! c = Some l /\ end' <= Z.of_nat (length l).
Proof.
  rewrite container_ctor_unfold.
  destruct (Z.geb_spec begin end'); [discriminate |].
  destruct (m !! c) as [l |]; [| discriminate].
  destruct (Z.gtb_spec end' (Z.of_nat (length l))); [discriminate |].
  intros [= <- <-]. repeat split; [lia |]. exists l. split; [reflexivity | lia].
Qed.

Lemma pointer_ctor_Ok m m' ptr (begin end' : Z) (v : PointerSlice.Slice) :
  PointerSlice.Slice_ctor ptr begin end' m = (Ok v, m') ->
  m' = m /\
  v = {| PointerSlice.base := {| Internal.begin_ := begin; Internal.end_ := end' |};
         PointerSlice.ptr_ := ptr |} /\
  begin < end' /\
  exists q, ptr = pointer_to q.
Proof.
  rewrite pointer_ctor_unfold.
  destruct (Z.geb_spec begin end'); [discriminate |].
  destruct ptr as [| q]; [discriminate |].
  intros [= <- <-]. repeat split; [lia |]. exists q. reflexivity.
Qed.

(** C3. Whenever [begin >= end], construction throws the
    [std::out_of_range] of SliceBase (InvalidRange), whatever the
    container holds and whatever the pointer is, the null pointer
    included.  For a container holding [l], [end > l.size()] makes
    construction fail with InvalidRange, and
    [0 <= begin < end <= l.size()] makes it succeed with a view of
    size [end - begin]. *)
Theorem construction_checks_range m c ptr (l : list T) (begin end' : Z) :
  (end' <= begin ->
     fails_with InvalidRange (fst (ContainerSlice.Slice_ctor c begin end' m)) = true /\
     fails_with InvalidRange (fst (PointerSlice.Slice_ctor ptr begin end' m)) = true /\
     fails_with InvalidRange (fst (PointerSlice.Slice_ctor nullptr begin end' m)) = true) /\
  (m !! c = Some l -> end' > Z.of_nat (length l) ->
     fails_with InvalidRange (fst (ContainerSlice.Slice_ctor c begin end' m)) = true) /\
  (m !! c = Some l -> is_size_t end' -> 0 <= begin < end' -> end' <= Z.of_nat (length l) ->
     exists v : ContainerSlice.Slice,
       ContainerSlice.Slice_ctor c begin end' m = (Ok v, m) /\
       Internal.size v = end' - begin).
Proof.
  split; [| split].
  - intros Hge.
    rewrite container_ctor_unfold, !pointer_ctor_unfold.
    destruct (Z.geb_spec begin end'); [| lia].
    repeat split; reflexivity.
  - intros Hl Hgt.
    rewrite container_ctor_unfold, Hl.
    destruct (begin >=? end'); [reflexivity |].
    destruct (Z.gtb_spec end' (Z.of_nat (length l))); [reflexivity | lia].
  - intros Hl He Hbe Hle.
    rewrite container_ctor_unfold, Hl.
    destruct (Z.geb_spec begin end'); [lia |].
    destruct (Z.gtb_spec end' (Z.of_nat (length l))); [lia |].
    eexists. split; [reflexivity |].
    apply size_exact; cbn; size_t_lia.
Qed.

(** C7. With [begin < end], a null pointer makes the pointer
    constructor throw [std::invalid_argument] (NullPointer), and any
    non-null pointer makes it succeed: nothing is asked of the store,
    so [end] is not compared with the array the pointer points into. *)
Theorem pointer_construction_checks_null m (q : place) (begin end' : Z) :
  begin < end' ->
  PointerSlice.Slice_ctor nullptr begin end' m
    = (Throw (invalid_argument "ptr must not be null."), m) /\
  fails_with NullPointer (fst (PointerSlice.Slice_ctor nullptr begin end' m)) = true /\
  PointerSlice.Slice_ctor (pointer_to q) begin end' m
    = (Ok {| PointerSlice.base := {| Internal.begin_ := begin; Internal.end_ := end' |};
             PointerSlice.ptr_ := pointer_to q |}, m).
Proof.
  intros Hlt. rewrite !pointer_ctor_unfold.
  destruct (Z.geb_spec begin end'); [lia |].
  repeat split; reflexivity.
Qed.

(** C9. [makeSlice(cont)] on a container whose [size()] is 0 passes
    the bounds 0 and 0 to the constructor and fails with InvalidRange. *)
Theorem makeSlice_whole_empty_fails m c (l : list T) :
  m !! c = Some l -> length l = 0%nat ->
  makeSlice_whole c m = (Throw (out_of_range "Begin must be smaller than end"), m) /\
  fails_with InvalidRange (fst (makeSlice_whole c m)) = true.
Proof.
  intros Hl Hlen.
  assert (Heq : makeSlice_whole c m
                = (Throw (out_of_range "Begin must be smaller than end"), m)).
  { unfold makeSlice_whole, bind, cont_size. rewrite Hl, Hlen.
    rewrite container_ctor_unfold. reflexivity. }
  rewrite Heq. split; reflexivity.
Qed.

End Construction.

(** ** Element access *)

Section Access.
Context {T : Type} `{StdLib}.
Implicit Types (m : gmap positive (list T)) (c : positive) (ptr : pointer).

Lemma container_ctor_in_bounds m m' c (begin end' : Z) (v : ContainerSlice.Slice) :
  is_size_t begin -> is_size_t end' ->
  ContainerSlice.Slice_ctor c begin end' m = (Ok v, m') ->
  m' = m /\ ContainerSlice.cont_ v = c /\
  Internal.begin_ v = begin /\ Internal.end_ v = end' /\
  exists l, in_bounds m v l.
Proof.
  intros Hb He Hctor.
  destruct (container_ctor_Ok _ _ _ _ _ _ Hctor) as (-> & -> & Hlt & l & Hl & Hle).
  repeat split; try reflexivity.
  exists l. repeat split; cbn; first [assumption | apply Hb | apply He].
Qed.

Lemma container_at_unfold (v : ContainerSlice.Slice) (i : Z) m :
  ContainerSlice.at_ v i m =
    if i >=? Internal.size v
    then (Throw (out_of_range "Index outside of the slice"), m)
    else cont_at (ContainerSlice.cont_ v) (size_t_wrap (Internal.begin_ v + i)) m.
Proof.
  unfold ContainerSlice.at_, bind, lift, Internal.rangeCheck.
  destruct (i >=? Internal.size v); reflexivity.
Qed.

Lemma pointer_at_unfold (w : PointerSlice.Slice) (i : Z) m :
  PointerSlice.at_ w i m =
    if i >=? Internal.size w
    then (Throw (out_of_range "Index outside of the slice"), m)
    else ptr_index (PointerSlice.ptr_ w) (size_t_wrap (Internal.begin_ w + i)) m.
Proof.
  unfold PointerSlice.at_, bind, lift, Internal.rangeCheck.
  destruct (i >=? Internal.size w); reflexivity.
Qed.

(** Inside the view, [at] yields the reference to element
    [begin_ + index] of the container. *)
Lemma container_at_in_bounds m (v : ContainerSlice.Slice) (l : list T) (i : Z) :
  in_bounds m v l -> 0 <= i < Internal.size v ->
  ContainerSlice.at_ v i m
    = (Ok {| obj := ContainerSlice.cont_ v; pos := Internal.begin_ v + i |}, m) /\
  ContainerSlice.at_ v i m
    = cont_at (ContainerSlice.cont_ v) (Internal.begin_ v + i) m /\
  Internal.begin_ v + i < Z.of_nat (length l).
Proof.
  intros ((Hb & He & Hlt) & Hl & Hle) Hi.
  rewrite (size_exact v Hb He Hlt) in Hi.
  assert (Hw : size_t_wrap (Internal.begin_ v + i) = Internal.begin_ v + i)
    by (apply size_t_wrap_small; size_t_lia).
  rewrite container_at_unfold, (size_exact v Hb He Hlt), Hw.
  destruct (Z.geb_spec i (Internal.end_ v - Internal.begin_ v)); [lia |].
  unfold cont_at. rewrite Hl.
  destruct (Z.ltb_spec (Internal.begin_ v + i) (Z.of_nat (length l))); [| lia].
  repeat split; lia.
Qed.

Lemma load_in_range m (l : list T) (p : place) :
  m !! obj p = Some l -> 0 <= pos p < Z.of_nat (length l) ->
  exists x, l !! Z.to_nat (pos p) = Some x /\ load p m = (Ok x, m).
Proof.
  intros Hl Hp.
  destruct (lookup_lt_is_Some_2 l (Z.to_nat (pos p))) as [x Hx]; [lia |].
  exists x. split; [exact Hx |].
  unfold load. rewrite Hl, Hx.
  destruct (Z.leb_spec 0 (pos p)); [reflexivity | lia].
Qed.

Lemma assign_in_range m (l : list T) (p : place) (y : T) :
  m !! obj p = Some l -> 0 <= pos p < Z.of_nat (length l) ->
  assign p y m = (Ok tt, <[obj p := <[Z.to_nat (pos p) := y]> l]> m).
Proof.
  intros Hl Hp. unfold assign. rewrite Hl.
  destruct (Z.leb_spec 0 (pos p)); [| lia].
  destruct (Z.ltb_spec (pos p) (Z.of_nat (length l))); [reflexivity | lia].
Qed.

(** Assigning to one element leaves every other element of the store,
    and every length, as it was. *)
Lemma element_after_assign m c (l : list T) (n : nat) (y : T) :
  m !! c = Some l -> (n < length l)%nat ->
  element (<[c := <[n := y]> l]> m) c n = Some y /\
  forall c' j, c' <> c \/ j <> n ->
    element (<[c := <[n := y]> l]> m) c' j = element m c' j.
Proof.
  intros Hl Hn. unfold element. split.
  - rewrite lookup_insert_eq. apply list_lookup_insert_eq. exact Hn.
  - intros c' j Hne.
    destruct (decide (c' = c)) as [-> | Hc].
    + rewrite lookup_insert_eq, Hl.
      apply list_lookup_insert_ne. destruct Hne as [Hne | Hne]; congruence.
    + rewrite lookup_insert_ne by congruence. reflexivity.
Qed.

(** C1. On a constructed container view and for [0 <= i < size()],
    [at(i)] is the container's own [at(begin + i)]: it reads the
    element at absolute position [begin + i], and an assignment through
    it is the assignment through [cont.at(begin + i)], after which that
    element holds the new value and every other element of the store is
    unchanged. *)
Theorem at_is_store_at_offset m c (begin end' : Z) (v : ContainerSlice.Slice) (i : Z) :
  is_size_t begin -> is_size_t end' ->
  ContainerSlice.Slice_ctor c begin end' m = (Ok v, m) ->
  0 <= i < Internal.size v ->
  ContainerSlice.at_ v i m = cont_at c (begin + i) m /\
  (exists x : T,
     element m c (Z.to_nat (begin + i)) = Some x /\
     (let* r := ContainerSlice.at_ v i in load r) m = (Ok x, m)) /\
  (forall y : T, exists m',
     (let* r := ContainerSlice.at_ v i in assign r y) m = (Ok tt, m') /\
     (let* r := cont_at c (begin + i) in assign r y) m = (Ok tt, m') /\
     element m' c (Z.to_nat (begin + i)) = Some y /\
     forall c' j, c' <> c \/ j <> Z.to_nat (begin + i) ->
       element m' c' j = element m c' j).
Proof.
  intros Hb He Hctor Hi.
  destruct (container_ctor_in_bounds _ _ _ _ _ _ Hb He Hctor)
    as (_ & Hc & Hvb & Hve & l & Hin).
  destruct (container_at_in_bounds m v l i Hin Hi) as (Hat & Hcont & Hlt).
  destruct Hin as ((Hb' & _ & _) & Hl & _).
  rewrite Hc in *. rewrite Hvb in *.
  assert (Hpos : 0 <= begin + i < Z.of_nat (length l))
    by size_t_lia.
  split; [exact Hcont |]. split.
  - destruct (load_in_range m l {| obj := c; pos := begin + i |} Hl Hpos)
      as (x & Hx & Hload).
    exists x. split.
    + unfold element. rewrite Hl. exact Hx.
    + unfold bind. rewrite Hat. exact Hload.
  - intros y.
    exists (<[c := <[Z.to_nat (begin + i) := y]> l]> m).
    pose proof (assign_in_range m l {| obj := c; pos := begin + i |} y Hl Hpos) as Hasg.
    cbn [obj pos] in Hasg.
    split; [unfold bind; rewrite Hat; exact Hasg |].
    split; [unfold bind; rewrite <- Hcont, Hat; exact Hasg |].
    apply element_after_assign; [exact Hl | lia].
Qed.

(** [ptr[n]] never throws. *)
Lemma ptr_index_no_throw ptr (n : Z) m (e : exception) :
  fst (ptr_index (T:=T) ptr n m) <> Throw e.
Proof.
  unfold ptr_index.
  destruct ptr as [| q]; [discriminate |].
  destruct (m !! obj q); [| discriminate].
  destruct ((0 <=? pos q + n) && (pos q + n <? Z.of_nat (length l))); discriminate.
Qed.

Lemma container_at_index_check m c (begin end' : Z) (v : ContainerSlice.Slice) (i : Z) :
  is_size_t begin -> is_size_t end' -> 0 <= i ->
  ContainerSlice.Slice_ctor c begin end' m = (Ok v, m) ->
  (fails_with IndexOutOfRange (fst (ContainerSlice.at_ v i m)) = true
     <-> Internal.size v <= i) /\
  (i < Internal.size v ->
     ContainerSlice.at_ v i m = cont_at c (begin + i) m /\
     succeeds (fst (ContainerSlice.at_ v i m)) = true).
Proof.
  intros Hb He Hi Hctor.
  destruct (container_ctor_in_bounds _ _ _ _ _ _ Hb He Hctor)
    as (_ & Hc & Hvb & Hve & l & Hin).
  destruct (Z.le_gt_cases (Internal.size v) i) as [Hout | Hlt].
  - split; [| lia].
    rewrite container_at_unfold.
    destruct (Z.geb_spec i (Internal.size v)); [| lia].
    split; [intros _; exact Hout | reflexivity].
  - destruct (container_at_in_bounds m v l i Hin (conj Hi Hlt)) as (Hat & Hcont & _).
    rewrite Hc, Hvb in Hcont.
    split.
    + rewrite Hat. cbn. split; [discriminate | lia].
    + intros _. split; [exact Hcont | rewrite Hat; reflexivity].
Qed.

Lemma pointer_at_index_check m ptr (begin end' : Z) (w : PointerSlice.Slice) (i : Z) :
  is_size_t begin -> is_size_t end' -> 0 <= i ->
  PointerSlice.Slice_ctor ptr begin end' m = (Ok w, m) ->
  (fails_with IndexOutOfRange (fst (PointerSlice.at_ w i m)) = true
     <-> Internal.size w <= i) /\
  (i < Internal.size w ->
     PointerSlice.at_ w i m = ptr_index ptr (begin + i) m).
Proof.
  intros Hb He Hi Hctor.
  destruct (pointer_ctor_Ok _ _ _ _ _ _ Hctor) as (_ & -> & Hlt & q & ->).
  rewrite pointer_at_unfold. cbn [PointerSlice.base PointerSlice.ptr_ Internal.begin_].
  assert (Hsize : Internal.size {| Internal.begin_ := begin; Internal.end_ := end' |}
                  = end' - begin) by (apply size_exact; cbn; assumption).
  rewrite Hsize.
  destruct (Z.geb_spec i (end' - begin)) as [Hge | Hin].
  - split; [| lia]. split; [intros _; exact Hge | reflexivity].
  - assert (Hw : size_t_wrap (begin + i) = begin + i)
      by (apply size_t_wrap_small; size_t_lia).
    rewrite Hw. split; [| reflexivity].
    split; [| lia].
    intros Hfail. exfalso.
    pose proof (ptr_index_no_throw (pointer_to q) (begin + i) m) as Hno.
    destruct (fst (ptr_index (pointer_to q) (begin + i) m)) as [p | e |] eqn:Ho;
      cbn in Hfail; try discriminate.
    exact (Hno e eq_refl).
Qed.

(** C4. On a constructed view, container-backed or pointer-backed,
    and for an index [i] of type [size_t], [at(i)] fails with
    IndexOutOfRange exactly when [i >= size()]; when [i < size()] the
    range check lets it through and the call is the store's own access
    at [begin + i]: [cont.at(begin + i)], resp. [ptr[begin + i]].  The
    two branches of [at] are the same for any view value and any store:
    the last part does not ask that the view was constructed there. *)
Theorem at_fails_iff_index_beyond_size :
  (forall m c (begin end' : Z) (v : ContainerSlice.Slice) (i : Z),
     is_size_t begin -> is_size_t end' -> 0 <= i ->
     ContainerSlice.Slice_ctor c begin end' m = (Ok v, m) ->
     (fails_with IndexOutOfRange (fst (ContainerSlice.at_ v i m)) = true
        <-> Internal.size v <= i) /\
     (i < Internal.size v ->
        ContainerSlice.at_ v i m = cont_at c (begin + i) m /\
        succeeds (fst (ContainerSlice.at_ v i m)) = true)) /\
  (forall m ptr (begin end' : Z) (w : PointerSlice.Slice) (i : Z),
     is_size_t begin -> is_size_t end' -> 0 <= i ->
     PointerSlice.Slice_ctor ptr begin end' m = (Ok w, m) ->
     (fails_with IndexOutOfRange (fst (PointerSlice.at_ w i m)) = true
        <-> Internal.size w <= i) /\
     (i < Internal.size w ->
        PointerSlice.at_ w i m = ptr_index ptr (begin + i) m)) /\
  (forall m (v : ContainerSlice.Slice) (w : PointerSlice.Slice) (i : Z),
     (Internal.size v <= i ->
        ContainerSlice.at_ v i m
          = (Throw (out_of_range "Index outside of the slice"), m)) /\
     (i < Internal.size v ->
        ContainerSlice.at_ v i m
          = cont_at (ContainerSlice.cont_ v) (size_t_wrap (Internal.begin_ v + i)) m) /\
     (Internal.size w <= i ->
        PointerSlice.at_ w i m
          = (Throw (out_of_range "Index outside of the slice"), m)) /\
     (i < Internal.size w ->
        PointerSlice.at_ w i m
          = ptr_index (PointerSlice.ptr_ w) (size_t_wrap (Internal.begin_ w + i)) m)).
Proof.
  split; [| split].
  - intros m c begin end' v i. apply container_at_index_check.
  - intros m ptr begin end' w i. apply pointer_at_index_check.
  - intros m v w i.
    rewrite container_at_unfold, pointer_at_unfold.
    destruct (Z.geb_spec i (Internal.size v)), (Z.geb_spec i (Internal.size w));
      repeat split; intros; first [reflexivity | lia].
Qed.

End Access.

(** ** Sub-slices *)

Section SubSlices.
Context {T : Type} `{StdLib}.
Implicit Types (m : gmap positive (list T)) (c : positive) (ptr : pointer).

Lemma container_subSlice_unfold (v : ContainerSlice.Slice) (a b : Z) m :
  ContainerSlice.subSlice v a b m =
    match Internal.calculateSubSliceBounds v a b with
    | Ok be => ContainerSlice.Slice_ctor (ContainerSlice.cont_ v) (fst be) (snd be) m
    | Throw e => (Throw e, m)
    | Undefined => (Undefined, m)
    end.
Proof.
  unfold ContainerSlice.subSlice, bind, lift.
  destruct (Internal.calculateSubSliceBounds v a b); reflexivity.
Qed.

Lemma pointer_subSlice_unfold (w : PointerSlice.Slice) (a b : Z) m :
  PointerSlice.subSlice w a b m =
    match Internal.calculateSubSliceBounds w a b with
    | Ok be => PointerSlice.Slice_ctor (PointerSlice.ptr_ w) (fst be) (snd be) m
    | Throw e => (Throw e, m)
    | Undefined => (Undefined, m)
    end.
Proof.
  unfold PointerSlice.subSlice, bind, lift.
  destruct (Internal.calculateSubSliceBounds w a b); reflexivity.
Qed.

(** Which bounds [calculateSubSliceBounds] hands to the constructor. *)
Lemma calculateSubSliceBounds_cases (s : Internal.SliceBase) (a b : Z) :
  bounds_ok s -> is_size_t a -> is_size_t b ->
  (Internal.size s <= a \/ Internal.size s < b) /\
    Internal.calculateSubSliceBounds s a b
      = Throw (out_of_range "sub-Slice index out of range")
  \/
  (a < Internal.size s /\ b <= Internal.size s) /\
    Internal.calculateSubSliceBounds s a b
      = Ok (a + Internal.begin_ s, b + Internal.begin_ s).
Proof.
  intros (Hb & He & Hlt) Ha Hb'.
  destruct (Z.le_gt_cases (Internal.size s) a) as [Hout | Hin1].
  { left. split; [lia |]. apply calculateSubSliceBounds_rejects. lia. }
  destruct (Z.lt_ge_cases (Internal.size s) b) as [Hout | Hin2].
  { left. split; [lia |]. apply calculateSubSliceBounds_rejects. lia. }
  right. split; [lia |].
  apply (calculateSubSliceBounds_passes s a b Hb He Hlt Ha Hb' Hin1 Hin2).
Qed.

(** A sub-slice that was constructed lies inside its parent and views
    the same container. *)
Lemma container_subSlice_Ok m m' (v sub : ContainerSlice.Slice) (l : list T) (a b : Z) :
  in_bounds m v l -> is_size_t a -> is_size_t b ->
  ContainerSlice.subSlice v a b m = (Ok sub, m') ->
  m' = m /\ a < b /\ b <= Internal.size v /\
  sub = {| ContainerSlice.base :=
             {| Internal.begin_ := a + Internal.begin_ v;
                Internal.end_ := b + Internal.begin_ v |};
           ContainerSlice.cont_ := ContainerSlice.cont_ v |} /\
  in_bounds m sub l.
Proof.
  intros (Hbounds & Hl & Hle) Ha Hb Hsub.
  rewrite container_subSlice_unfold in Hsub.
  destruct (calculateSubSliceBounds_cases v a b Hbounds Ha Hb)
    as [[_ Hcalc] | [[Ha' Hb'] Hcalc]];
    rewrite Hcalc in Hsub; [discriminate |].
  cbn [fst snd] in Hsub.
  destruct (container_ctor_Ok _ _ _ _ _ _ Hsub) as (-> & -> & Hlt & l' & Hl' & Hle').
  destruct Hbounds as (Hvb & Hve & Hvlt).
  rewrite (size_exact v Hvb Hve Hvlt) in Ha', Hb'.
  repeat split; cbn; try size_t_lia; try assumption.
  rewrite (size_exact v Hvb Hve Hvlt). lia.
Qed.

Lemma pointer_subSlice_Ok m m' (w sub : PointerSlice.Slice) (a b : Z) :
  bounds_ok w -> is_size_t a -> is_size_t b ->
  PointerSlice.subSlice w a b m = (Ok sub, m') ->
  m' = m /\ a < b /\ b <= Internal.size w /\
  sub = {| PointerSlice.base :=
             {| Internal.begin_ := a + Internal.begin_ w;
                Internal.end_ := b + Internal.begin_ w |};
           PointerSlice.ptr_ := PointerSlice.ptr_ w |} /\
  bounds_ok sub.
Proof.
  intros Hbounds Ha Hb Hsub.
  rewrite pointer_subSlice_unfold in Hsub.
  destruct (calculateSubSliceBounds_cases w a b Hbounds Ha Hb)
    as [[_ Hcalc] | [[Ha' Hb'] Hcalc]];
    rewrite Hcalc in Hsub; [discriminate |].
  cbn [fst snd] in Hsub.
  destruct (pointer_ctor_Ok _ _ _ _ _ _ Hsub) as (-> & -> & Hlt & _).
  destruct Hbounds as (Hvb & Hve & Hvlt).
  rewrite (size_exact w Hvb Hve Hvlt) in Ha', Hb'.
  repeat split; cbn; try size_t_lia.
  rewrite (size_exact w Hvb Hve Hvlt). lia.
Qed.

Lemma pointer_ctor_bounds m m' ptr (begin end' : Z) (w : PointerSlice.Slice) :
  is_size_t begin -> is_size_t end' ->
  PointerSlice.Slice_ctor ptr begin end' m = (Ok w, m') ->
  m' = m /\ PointerSlice.ptr_ w = ptr /\
  Internal.begin_ w = begin /\ Internal.end_ w = end' /\
  bounds_ok w /\ exists q, ptr = pointer_to q.
Proof.
  intros Hb He Hctor.
  destruct (pointer_ctor_Ok _ _ _ _ _ _ Hctor) as (-> & -> & Hlt & q & ->).
  repeat split; cbn; try size_t_lia.
  exists q. reflexivity.
Qed.

Lemma container_subSlice_at m m' c (begin end' : Z) (v sub : ContainerSlice.Slice)
    (a b k : Z) :
  is_size_t begin -> is_size_t end' -> is_size_t a -> is_size_t b ->
  ContainerSlice.Slice_ctor c begin end' m = (Ok v, m) ->
  ContainerSlice.subSlice v a b m = (Ok sub, m') ->
  0 <= k < b - a ->
  m' = m /\
  ContainerSlice.cont_ sub = ContainerSlice.cont_ v /\
  Internal.size sub = b - a /\
  ContainerSlice.at_ sub k m = ContainerSlice.at_ v (a + k) m /\
  exists x : T,
    (let* r := ContainerSlice.at_ sub k in load r) m = (Ok x, m) /\
    (let* r := ContainerSlice.at_ v (a + k) in load r) m = (Ok x, m).
Proof.
  intros Hb He Ha Hb' Hctor Hsub Hk.
  destruct (container_ctor_in_bounds _ _ _ _ _ _ Hb He Hctor)
    as (_ & Hc & Hvb & Hve & l & Hin).
  destruct (container_subSlice_Ok _ _ _ _ _ _ _ Hin Ha Hb' Hsub)
    as (-> & Hab & Hbsz & Hsubeq & Hsubin).
  assert (Hsz : Internal.size sub = b - a).
  { destruct Hsubin as ((Hsb & Hse & Hslt) & _).
    rewrite (size_exact sub Hsb Hse Hslt), Hsubeq. cbn. lia. }
  assert (Hk1 : 0 <= k < Internal.size sub) by lia.
  assert (Hk2 : 0 <= a + k < Internal.size v) by size_t_lia.
  destruct (container_at_in_bounds m sub l k Hsubin Hk1) as (Hat1 & _ & Hlt1).
  destruct (container_at_in_bounds m v l (a + k) Hin Hk2) as (Hat2 & _ & _).
  assert (Hsame : ContainerSlice.at_ sub k m = ContainerSlice.at_ v (a + k) m).
  { rewrite Hat1, Hat2, Hsubeq. cbn. do 3 f_equal. lia. }
  split; [reflexivity |]. split; [rewrite Hsubeq; reflexivity |].
  split; [exact Hsz |]. split; [exact Hsame |].
  destruct Hsubin as ((Hsb & _ & _) & Hl & _).
  destruct (load_in_range m l
              {| obj := ContainerSlice.cont_ sub; pos := Internal.begin_ sub + k |})
    as (x & _ & Hload); [exact Hl | cbn; size_t_lia |].
  exists x. unfold bind. rewrite <- Hsame, Hat1. split; exact Hload.
Qed.

Lemma pointer_subSlice_at m m' ptr (begin end' : Z) (w sub : PointerSlice.Slice)
    (a b k : Z) :
  is_size_t begin -> is_size_t end' -> is_size_t a -> is_size_t b ->
  PointerSlice.Slice_ctor ptr begin end' m = (Ok w, m) ->
  PointerSlice.subSlice w a b m = (Ok sub, m') ->
  0 <= k < b - a ->
  m' = m /\
  PointerSlice.ptr_ sub = PointerSlice.ptr_ w /\
  Internal.size sub = b - a /\
  PointerSlice.at_ sub k m = PointerSlice.at_ w (a + k) m.
Proof.
  intros Hb He Ha Hb' Hctor Hsub Hk.
  destruct (pointer_ctor_bounds _ _ _ _ _ _ Hb He Hctor)
    as (_ & Hp & Hvb & Hve & Hbounds & _).
  destruct (pointer_subSlice_Ok _ _ _ _ _ _ Hbounds Ha Hb' Hsub)
    as (-> & Hab & Hbsz & Hsubeq & (Hsb & Hse & Hslt)).
  pose proof Hbounds as (Hwb & Hwe & Hwlt).
  assert (Hsz : Internal.size sub = b - a).
  { rewrite (size_exact sub Hsb Hse Hslt), Hsubeq. cbn. lia. }
  split; [reflexivity |]. split; [rewrite Hsubeq; reflexivity |].
  split; [exact Hsz |].
  rewrite !pointer_at_unfold, Hsz.
  rewrite (size_exact w Hwb Hwe Hwlt) in *.
  destruct (Z.geb_spec k (b - a)); [lia |].
  destruct (Z.geb_spec (a + k) (Internal.end_ w - Internal.begin_ w)); [lia |].
  rewrite Hsubeq. cbn [PointerSlice.base PointerSlice.ptr_ Internal.begin_].
  rewrite !size_t_wrap_small by size_t_lia.
  f_equal. lia.
Qed.

(** C2. When [subSlice(a, b)] of a constructed view succeeds and
    [k < b - a], the sub-slice refers to the parent's container (resp.
    pointer), its size is [b - a], and its [at(k)] is the parent's
    [at(a + k)]: the same reference, hence the same element. *)
Theorem subSlice_at_is_at_offset :
  (forall m m' c (begin end' : Z) (v sub : ContainerSlice.Slice) (a b k : Z),
     is_size_t begin -> is_size_t end' -> is_size_t a -> is_size_t b ->
     ContainerSlice.Slice_ctor c begin end' m = (Ok v, m) ->
     ContainerSlice.subSlice v a b m = (Ok sub, m') ->
     0 <= k < b - a ->
     m' = m /\
     ContainerSlice.cont_ sub = ContainerSlice.cont_ v /\
     Internal.size sub = b - a /\
     ContainerSlice.at_ sub k m = ContainerSlice.at_ v (a + k) m /\
     exists x : T,
       (let* r := ContainerSlice.at_ sub k in load r) m = (Ok x, m) /\
       (let* r := ContainerSlice.at_ v (a + k) in load r) m = (Ok x, m)) /\
  (forall m m' ptr (begin end' : Z) (w sub : PointerSlice.Slice) (a b k : Z),
     is_size_t begin -> is_size_t end' -> is_size_t a -> is_size_t b ->
     PointerSlice.Slice_ctor ptr begin end' m = (Ok w, m) ->
     PointerSlice.subSlice (T:=T) w a b m = (Ok sub, m') ->
     0 <= k < b - a ->
     m' = m /\
     PointerSlice.ptr_ sub = PointerSlice.ptr_ w /\
     Internal.size sub = b - a /\
     PointerSlice.at_ sub k m = PointerSlice.at_ w (a + k) m).
Proof.
  split.
  - intros m m' c begin end' v sub a b k. apply container_subSlice_at.
  - intros m m' ptr begin end' w sub a b k. apply pointer_subSlice_at.
Qed.

Lemma subSlice_end_zero (s : Internal.SliceBase) (a : Z) :
  bounds_ok s -> is_size_t a ->
  Internal.calculateSubSliceBounds s a 0
    = Throw (out_of_range "sub-Slice index out of range")
  \/ Internal.calculateSubSliceBounds s a 0
      = Ok (a + Internal.begin_ s, 0 + Internal.begin_ s).
Proof.
  intros Hs Ha.
  destruct (calculateSubSliceBounds_cases s a 0 Hs Ha) as [[_ E] | [_ E]];
    [size_t_lia | left; exact E | right; exact E].
Qed.

Lemma container_subSlice_edges m (v : ContainerSlice.Slice) (l : list T) (a b : Z) :
  in_bounds m v l -> is_size_t a ->
  (a < b -> b = Internal.size v ->
     exists sub, ContainerSlice.subSlice v a b m = (Ok sub, m) /\
                 Internal.size sub = b - a) /\
  fails_with InvalidRange (fst (ContainerSlice.subSlice v a 0 m)) = true /\
  (Internal.size v <= a ->
     fails_with InvalidRange (fst (ContainerSlice.subSlice v a b m)) = true).
Proof.
  intros (Hbounds & Hl & Hle) Ha.
  pose proof Hbounds as (Hvb & Hve & Hvlt).
  split; [| split].
  - intros Hab ->.
    assert (Hsz : is_size_t (Internal.size v))
      by (rewrite (size_exact v Hvb Hve Hvlt); size_t_lia).
    destruct (calculateSubSliceBounds_passes v a (Internal.size v)
                Hvb Hve Hvlt Ha Hsz Hab (Z.le_refl _)) as (_ & _ & _ & Hcalc).
    rewrite container_subSlice_unfold, Hcalc, container_ctor_unfold, Hl.
    cbn [fst snd]. rewrite (size_exact v Hvb Hve Hvlt) in *.
    destruct (Z.geb_spec (a + Internal.begin_ v)
                (Internal.end_ v - Internal.begin_ v + Internal.begin_ v)); [lia |].
    destruct (Z.gtb_spec (Internal.end_ v - Internal.begin_ v + Internal.begin_ v)
                (Z.of_nat (length l))); [lia |].
    eexists. split; [reflexivity |].
    rewrite size_exact; cbn; size_t_lia.
  - rewrite container_subSlice_unfold.
    destruct (subSlice_end_zero v a Hbounds Ha) as [-> | ->]; [reflexivity |].
    cbn [fst snd]. rewrite container_ctor_unfold.
    destruct (Z.geb_spec (a + Internal.begin_ v) (0 + Internal.begin_ v));
      [reflexivity | size_t_lia].
  - intros Hout.
    rewrite container_subSlice_unfold, calculateSubSliceBounds_rejects by lia.
    reflexivity.
Qed.

Lemma pointer_subSlice_edges m (w : PointerSlice.Slice) (a b : Z) :
  bounds_ok w -> (exists q, PointerSlice.ptr_ w = pointer_to q) -> is_size_t a ->
  (a < b -> b = Internal.size w ->
     exists sub, PointerSlice.subSlice w a b m = (Ok sub, m) /\
                 Internal.size sub = b - a) /\
  fails_with InvalidRange (fst (PointerSlice.subSlice w a 0 m)) = true /\
  (Internal.size w <= a ->
     fails_with InvalidRange (fst (PointerSlice.subSlice w a b m)) = true).
Proof.
  intros Hbounds [q Hq] Ha.
  pose proof Hbounds as (Hvb & Hve & Hvlt).
  split; [| split].
  - intros Hab ->.
    assert (Hsz : is_size_t (Internal.size w))
      by (rewrite (size_exact w Hvb Hve Hvlt); size_t_lia).
    destruct (calculateSubSliceBounds_passes w a (Internal.size w)
                Hvb Hve Hvlt Ha Hsz Hab (Z.le_refl _)) as (_ & _ & _ & Hcalc).
    rewrite pointer_subSlice_unfold, Hcalc, pointer_ctor_unfold, Hq.
    cbn [fst snd]. rewrite (size_exact w Hvb Hve Hvlt) in *.
    destruct (Z.geb_spec (a + Internal.begin_ w)
                (Internal.end_ w - Internal.begin_ w + Internal.begin_ w)); [lia |].
    eexists. split; [reflexivity |].
    rewrite size_exact; cbn; size_t_lia.
  - rewrite pointer_subSlice_unfold.
    destruct (subSlice_end_zero w a Hbounds Ha) as [-> | ->]; [reflexivity |].
    cbn [fst snd]. rewrite pointer_ctor_unfold.
    destruct (Z.geb_spec (a + Internal.begin_ w) (0 + Internal.begin_ w));
      [reflexivity | size_t_lia].
  - intros Hout.
    rewrite pointer_subSlice_unfold, calculateSubSliceBounds_rejects by lia.
    reflexivity.
Qed.

(** C5. On a constructed view, [subSlice(subBegin, subEnd)] with
    [subBegin < subEnd] and [subEnd == size()] succeeds;
    [subSlice(subBegin, 0)] fails with InvalidRange for every
    [subBegin]; and [subSlice(subBegin, subEnd)] with
    [subBegin >= size()] fails with InvalidRange. *)
Theorem subSlice_edge_cases :
  (forall m c (begin end' : Z) (v : ContainerSlice.Slice) (subBegin subEnd : Z),
     is_size_t begin -> is_size_t end' -> is_size_t subBegin ->
     ContainerSlice.Slice_ctor c begin end' m = (Ok v, m) ->
     (subBegin < subEnd -> subEnd = Internal.size v ->
        exists sub, ContainerSlice.subSlice v subBegin subEnd m = (Ok sub, m) /\
                    Internal.size sub = subEnd - subBegin) /\
     fails_with InvalidRange (fst (ContainerSlice.subSlice v subBegin 0 m)) = true /\
     (Internal.size v <= subBegin ->
        fails_with InvalidRange (fst (ContainerSlice.subSlice v subBegin subEnd m)) = true)) /\
  (forall m ptr (begin end' : Z) (w : PointerSlice.Slice) (subBegin subEnd : Z),
     is_size_t begin -> is_size_t end' -> is_size_t subBegin ->
     PointerSlice.Slice_ctor (T:=T) ptr begin end' m = (Ok w, m) ->
     (subBegin < subEnd -> subEnd = Internal.size w ->
        exists sub, PointerSlice.subSlice w subBegin subEnd m = (Ok sub, m) /\
                    Internal.size sub = subEnd - subBegin) /\
     fails_with InvalidRange (fst (PointerSlice.subSlice w subBegin 0 m)) = true /\
     (Internal.size w <= subBegin ->
        fails_with InvalidRange (fst (PointerSlice.subSlice w subBegin subEnd m)) = true)).
Proof.
  split.
  - intros m c begin end' v subBegin subEnd Hb He Ha Hctor.
    destruct (container_ctor_in_bounds _ _ _ _ _ _ Hb He Hctor)
      as (_ & _ & _ & _ & l & Hin).
    exact (container_subSlice_edges m v l subBegin subEnd Hin Ha).
  - intros m ptr begin end' w subBegin subEnd Hb He Ha Hctor.
    destruct (pointer_ctor_bounds _ _ _ _ _ _ Hb He Hctor)
      as (_ & Hp & _ & _ & Hbounds & q & Hq).
    apply pointer_subSlice_edges; [exact Hbounds | | exact Ha].
    exists q. congruence.
Qed.

End SubSlices.


(** ** Iteration *)

Section Iteration.
Context {T : Type} `{StdLib}.
Implicit Types (m : gmap positive (list T)) (c : positive) (ptr : pointer).

(** Walking [n] positions of an object that holds them all visits its
    elements from the starting position on, in order, and leaves the
    store alone. *)
Lemma range_for_places m (o : positive) (l : list T) (n : nat) :
  m !! o = Some l ->
  forall (fuel : nat) (p : Z),
    0 <= p -> p + Z.of_nat n <= Z.of_nat (length l) -> (n <= fuel)%nat ->
    range_for fuel {| obj := o; pos := p |} {| obj := o; pos := p + Z.of_nat n |} m
      = Some (Ok (take n (drop (Z.to_nat p) l)), m).
Proof.
  intros Hl. induction n as [| n IH]; intros fuel p Hp Hlen Hfuel.
  - replace (p + Z.of_nat 0) with p by lia.
    destruct fuel; cbn; unfold place_eqb; cbn;
      rewrite Pos.eqb_refl, Z.eqb_refl; reflexivity.
  - destruct fuel as [| fuel]; [lia |].
    cbn [range_for it_eqb it_incr it_deref container_iterator].
    unfold place_eqb. cbn [obj pos].
    destruct (Z.eqb_spec p (p + Z.of_nat (S n))) as [Heq | _]; [lia |].
    rewrite andb_false_r.
    destruct (lookup_lt_is_Some_2 l (Z.to_nat p)) as [x Hx]; [lia |].
    assert (Hstep : (let* r := ptr_index (pointer_to {| obj := o; pos := p |}) 0 in load r) m
                    = (Ok x, m)).
    { unfold bind, ptr_index, load, advance. cbn [obj pos]. rewrite Hl.
      destruct (Z.leb_spec 0 (p + 0)); [| lia].
      destruct (Z.ltb_spec (p + 0) (Z.of_nat (length l))); [| lia].
      cbn [andb obj pos]. rewrite Hl.
      replace (p + 0) with p by lia. rewrite Hx.
      destruct (Z.leb_spec 0 p); [reflexivity | lia]. }
    rewrite Hstep. unfold advance. cbn [obj pos].
    replace (p + Z.of_nat (S n)) with ((p + 1) + Z.of_nat n) by lia.
    rewrite IH by lia.
    rewrite (drop_S l x (Z.to_nat p) Hx).
    replace (Z.to_nat (p + 1)) with (S (Z.to_nat p)) by lia.
    reflexivity.
Qed.

(** Pointers to elements are walked like the positions they point at. *)
Lemma range_for_pointers (fuel : nat) :
  forall m (a b : place),
    range_for fuel (pointer_to a) (pointer_to b) m = range_for fuel a b m.
Proof.
  induction fuel as [| fuel IH]; intros m a b.
  - reflexivity.
  - cbn [range_for it_eqb it_incr it_deref container_iterator pointer_iterator
         pointer_eqb ptr_add].
    destruct (place_eqb a b); [reflexivity |].
    destruct ((let* r := ptr_index (pointer_to a) 0 in load r) m) as [[x | e |] m'];
      try reflexivity.
    rewrite IH. reflexivity.
Qed.

(** The [k]-th of the [n] elements from position [p] on. *)
Lemma lookup_window (l : list T) (p n k : nat) :
  (k < n)%nat -> (p + n <= length l)%nat ->
  exists x, take n (drop p l) !! k = Some x /\ l !! (p + k)%nat = Some x.
Proof.
  intros Hk Hlen.
  destruct (lookup_lt_is_Some_2 l (p + k)%nat) as [x Hx]; [lia |].
  exists x. split; [| exact Hx].
  rewrite lookup_take_lt by exact Hk. rewrite lookup_drop. exact Hx.
Qed.

Lemma container_iteration m (v : ContainerSlice.Slice) (l : list T) (fuel : nat) :
  in_bounds m v l -> Internal.size v <= Z.of_nat fuel ->
  exists elems : list T,
    range_for fuel (ContainerSlice.begin v) (ContainerSlice.end' v) m
      = Some (Ok elems, m) /\
    range_for fuel (ContainerSlice.cbegin v) (ContainerSlice.cend v) m
      = Some (Ok elems, m) /\
    Z.of_nat (length elems) = Internal.size v /\
    forall k, 0 <= k < Internal.size v ->
      exists x : T,
        elems !! Z.to_nat k = Some x /\
        element m (ContainerSlice.cont_ v) (Z.to_nat (Internal.begin_ v + k)) = Some x /\
        (let* r := ContainerSlice.at_ v k in load r) m = (Ok x, m).
Proof.
  intros Hin Hfuel.
  pose proof Hin as ((Hb & He & Hlt) & Hl & Hle).
  pose proof (size_exact v Hb He Hlt) as Hsz.
  set (n := Z.to_nat (Internal.size v)).
  assert (Hn : Z.of_nat n = Internal.end_ v - Internal.begin_ v) by (subst n; lia).
  exists (take n (drop (Z.to_nat (Internal.begin_ v)) l)).
  assert (Hwalk : range_for fuel (ContainerSlice.begin v) (ContainerSlice.end' v) m
                  = Some (Ok (take n (drop (Z.to_nat (Internal.begin_ v)) l)), m)).
  { unfold ContainerSlice.begin, ContainerSlice.end', advance, cont_begin. cbn [obj pos].
    replace (0 + Internal.end_ v) with (0 + Internal.begin_ v + Z.of_nat n) by lia.
    rewrite (range_for_places m _ l n Hl) by size_t_lia.
    reflexivity. }
  split; [exact Hwalk |]. split; [exact Hwalk |]. split.
  - rewrite length_take_le; [lia |]. rewrite length_drop. size_t_lia.
  - intros k Hk.
    destruct (lookup_window l (Z.to_nat (Internal.begin_ v)) n (Z.to_nat k)) as (x & Hx & Hlx);
      [lia | size_t_lia |].
    replace (Z.to_nat (Internal.begin_ v) + Z.to_nat k)%nat
      with (Z.to_nat (Internal.begin_ v + k)) in Hlx by size_t_lia.
    exists x. split; [exact Hx |]. split.
    + unfold element. rewrite Hl. exact Hlx.
    + destruct (container_at_in_bounds m v l k Hin Hk) as (Hat & _ & Hpos).
      unfold bind. rewrite Hat. unfold load. cbn [obj pos]. rewrite Hl, Hlx.
      destruct (Z.leb_spec 0 (Internal.begin_ v + k));
        [reflexivity | size_t_lia].
Qed.

Lemma pointer_iteration m (w : PointerSlice.Slice) (q : place) (l : list T) (fuel : nat) :
  in_array m w q l -> Internal.size w <= Z.of_nat fuel ->
  exists elems : list T,
    range_for fuel (PointerSlice.begin w) (PointerSlice.end' w) m
      = Some (Ok elems, m) /\
    range_for fuel (PointerSlice.cbegin w) (PointerSlice.cend w) m
      = Some (Ok elems, m) /\
    Z.of_nat (length elems) = Internal.size w /\
    forall k, 0 <= k < Internal.size w ->
      exists x : T,
        elems !! Z.to_nat k = Some x /\
        element m (obj q) (Z.to_nat (pos q + Internal.begin_ w + k)) = Some x /\
        (let* r := PointerSlice.at_ w k in load r) m = (Ok x, m).
Proof.
  intros ((Hb & He & Hlt) & Hq & Hl & Hpos & Hle) Hfuel.
  pose proof (size_exact w Hb He Hlt) as Hsz.
  set (n := Z.to_nat (Internal.size w)).
  assert (Hn : Z.of_nat n = Internal.end_ w - Internal.begin_ w) by (subst n; lia).
  set (p := pos q + Internal.begin_ w).
  exists (take n (drop (Z.to_nat p) l)).
  assert (Hwalk : range_for fuel (PointerSlice.begin w) (PointerSlice.end' w) m
                  = Some (Ok (take n (drop (Z.to_nat p) l)), m)).
  { unfold PointerSlice.begin, PointerSlice.end'. rewrite Hq.
    unfold ptr_add, advance. rewrite range_for_pointers.
    replace (pos q + Internal.end_ w) with (p + Z.of_nat n) by (subst p; lia).
    apply (range_for_places m _ l n Hl); subst p; size_t_lia. }
  split; [exact Hwalk |]. split; [exact Hwalk |]. split.
  - rewrite length_take_le; [lia |]. rewrite length_drop.
    subst p. size_t_lia.
  - intros k Hk.
    destruct (lookup_window l (Z.to_nat p) n (Z.to_nat k)) as (x & Hx & Hlx);
      [lia | subst p; size_t_lia |].
    replace (Z.to_nat p + Z.to_nat k)%nat with (Z.to_nat (p + k)) in Hlx
      by (subst p; size_t_lia).
    exists x. split; [exact Hx |]. split.
    + unfold element. rewrite Hl. exact Hlx.
    + rewrite Hsz in Hk.
      unfold bind. rewrite pointer_at_unfold, Hsz, Hq.
      destruct (Z.geb_spec k (Internal.end_ w - Internal.begin_ w)); [lia |].
      rewrite size_t_wrap_small by size_t_lia.
      unfold ptr_index. rewrite Hl.
      destruct (Z.leb_spec 0 (pos q + (Internal.begin_ w + k)));
        [| size_t_lia].
      destruct (Z.ltb_spec (pos q + (Internal.begin_ w + k)) (Z.of_nat (length l)));
        [| lia].
      cbn [andb]. unfold load, advance. cbn [obj pos]. rewrite Hl.
      replace (pos q + (Internal.begin_ w + k)) with (p + k) by (subst p; lia).
      rewrite Hlx.
      destruct (Z.leb_spec 0 (p + k)); [reflexivity | subst p; size_t_lia].
Qed.

(** C6. Traversing a constructed view from its begin iterator to its
    end iterator (mutable or const) ends, given as many steps as the
    view has elements, having visited exactly [size()] elements; the
    [k]-th one visited is the store's element at [begin + k] and is
    what [at(k)] reads.  The traversal leaves the store as it was, so
    the iterators obtained anew yield the same sequence.  For a pointer
    view the array has to reach up to [ptr + end], which only the
    caller can guarantee. *)
Theorem iteration_visits_the_view :
  (forall m c (begin end' : Z) (v : ContainerSlice.Slice) (fuel : nat),
     is_size_t begin -> is_size_t end' ->
     ContainerSlice.Slice_ctor c begin end' m = (Ok v, m) ->
     Internal.size v <= Z.of_nat fuel ->
     exists elems : list T,
       range_for fuel (ContainerSlice.begin v) (ContainerSlice.end' v) m
         = Some (Ok elems, m) /\
       range_for fuel (ContainerSlice.cbegin v) (ContainerSlice.cend v) m
         = Some (Ok elems, m) /\
       Z.of_nat (length elems) = Internal.size v /\
       forall k, 0 <= k < Internal.size v ->
         exists x : T,
           elems !! Z.to_nat k = Some x /\
           element m c (Z.to_nat (begin + k)) = Some x /\
           (let* r := ContainerSlice.at_ v k in load r) m = (Ok x, m)) /\
  (forall m (q : place) (l : list T) (begin end' : Z) (w : PointerSlice.Slice)
          (fuel : nat),
     is_size_t begin -> is_size_t end' ->
     PointerSlice.Slice_ctor (pointer_to q) begin end' m = (Ok w, m) ->
     m !! obj q = Some l -> 0 <= pos q -> pos q + end' <= Z.of_nat (length l) ->
     Internal.size w <= Z.of_nat fuel ->
     exists elems : list T,
       range_for fuel (PointerSlice.begin w) (PointerSlice.end' w) m
         = Some (Ok elems, m) /\
       range_for fuel (PointerSlice.cbegin w) (PointerSlice.cend w) m
         = Some (Ok elems, m) /\
       Z.of_nat (length elems) = Internal.size w /\
       forall k, 0 <= k < Internal.size w ->
         exists x : T,
           elems !! Z.to_nat k = Some x /\
           element m (obj q) (Z.to_nat (pos q + begin + k)) = Some x /\
           (let* r := PointerSlice.at_ w k in load r) m = (Ok x, m)).
Proof.
  split.
  - intros m c begin end' v fuel Hb He Hctor Hfuel.
    destruct (container_ctor_in_bounds _ _ _ _ _ _ Hb He Hctor)
      as (_ & <- & <- & _ & l & Hin).
    exact (container_iteration m v l fuel Hin Hfuel).
  - intros m q l begin end' w fuel Hb He Hctor Hl Hpos Hle Hfuel.
    destruct (pointer_ctor_bounds _ _ _ _ _ _ Hb He Hctor)
      as (_ & Hp & <- & <- & Hbounds & _).
    apply (pointer_iteration m w q l fuel); [| exact Hfuel].
    repeat split; try assumption; apply Hbounds.
Qed.

End Iteration.


(** ** The life of a view *)

Section Lifetime.
Context {T : Type} `{StdLib}.
Implicit Types (m : gmap positive (list T)) (c : positive) (ptr : pointer).

(** No constructor, [at] or [subSlice] writes to the store. *)
Lemma container_ctor_store m c (begin end' : Z) :
  snd (ContainerSlice.Slice_ctor c begin end' m) = m.
Proof.
  rewrite container_ctor_unfold.
  destruct (begin >=? end'); [reflexivity |].
  destruct (m !! c) as [l |]; [| reflexivity].
  destruct (end' >? Z.of_nat (length l)); reflexivity.
Qed.

Lemma pointer_ctor_store m ptr (begin end' : Z) :
  snd (PointerSlice.Slice_ctor ptr begin end' m) = m.
Proof.
  rewrite pointer_ctor_unfold.
  destruct (begin >=? end'); [reflexivity |].
  destruct ptr; reflexivity.
Qed.

Lemma container_at_store m (v : ContainerSlice.Slice) (i : Z) :
  snd (ContainerSlice.at_ v i m) = m.
Proof.
  rewrite container_at_unfold.
  destruct (i >=? Internal.size v); [reflexivity |].
  unfold cont_at. destruct (m !! ContainerSlice.cont_ v) as [l |]; [| reflexivity].
  destruct (size_t_wrap (Internal.begin_ v + i) <? Z.of_nat (length l)); reflexivity.
Qed.

Lemma pointer_at_store m (w : PointerSlice.Slice) (i : Z) :
  snd (PointerSlice.at_ w i m) = m.
Proof.
  rewrite pointer_at_unfold.
  destruct (i >=? Internal.size w); [reflexivity |].
  unfold ptr_index. destruct (PointerSlice.ptr_ w) as [| q]; [reflexivity |].
  destruct (m !! obj q) as [l |]; [| reflexivity].
  match goal with |- context [if ?b then _ else _] => destruct b end; reflexivity.
Qed.

Lemma container_subSlice_store m (v : ContainerSlice.Slice) (a b : Z) :
  snd (ContainerSlice.subSlice v a b m) = m.
Proof.
  rewrite container_subSlice_unfold.
  destruct (Internal.calculateSubSliceBounds v a b); try reflexivity.
  apply container_ctor_store.
Qed.

Lemma pointer_subSlice_store m (w : PointerSlice.Slice) (a b : Z) :
  snd (PointerSlice.subSlice w a b m) = m.
Proof.
  rewrite pointer_subSlice_unfold.
  destruct (Internal.calculateSubSliceBounds w a b); try reflexivity.
  apply pointer_ctor_store.
Qed.

(** A view that fits its store is what its constructor returns there. *)
Lemma in_bounds_ctor m (v : ContainerSlice.Slice) (l : list T) :
  in_bounds m v l ->
  ContainerSlice.Slice_ctor (ContainerSlice.cont_ v) (Internal.begin_ v) (Internal.end_ v) m
    = (Ok v, m).
Proof.
  intros ((Hb & He & Hlt) & Hl & Hle).
  rewrite container_ctor_unfold, Hl.
  destruct (Z.geb_spec (Internal.begin_ v) (Internal.end_ v)); [lia |].
  destruct (Z.gtb_spec (Internal.end_ v) (Z.of_nat (length l))); [lia |].
  destruct v as [[b e] c]. reflexivity.
Qed.

(** Dropping the value of a computation keeps how it ended and the
    store it left. *)
Lemma bind_discard {A : Type} (k : M (T:=T) A) m :
  (let* _ := k in ret tt) m
    = (match fst (k m) with
       | Ok _ => Ok tt
       | Throw e => Throw e
       | Undefined => Undefined
       end, snd (k m)).
Proof.
  unfold bind, ret. destruct (k m) as [[a | e |] m']; reflexivity.
Qed.

Lemma container_subSlice_defined m (v : ContainerSlice.Slice) (l : list T) (a b : Z) :
  in_bounds m v l -> is_size_t a -> is_size_t b ->
  fst (ContainerSlice.subSlice v a b m) <> Undefined.
Proof.
  intros (Hbounds & Hl & _) Ha Hb.
  rewrite container_subSlice_unfold.
  destruct (calculateSubSliceBounds_cases v a b Hbounds Ha Hb)
    as [[_ ->] | [_ ->]]; [discriminate |].
  rewrite container_ctor_unfold, Hl. cbn [fst snd].
  repeat match goal with |- context [if ?t then _ else _] => destruct t end;
    discriminate.
Qed.

(** One call on a view that fits its store: it ends normally or by an
    exception, the view still fits the store it leaves, and a call that
    failed leaves the store it found. *)
Lemma perform_keeps_in_bounds m (v : ContainerSlice.Slice) (l : list T) (k : call T) :
  in_bounds m v l -> call_ok (Internal.size v) k ->
  exists o m' l',
    perform v k m = Some (o, m') /\
    o <> Undefined /\
    in_bounds m' v l' /\
    (succeeds o = false -> m' = m).
Proof.
  intros Hin Hok.
  pose proof Hin as (Hbounds & Hl & Hle).
  pose proof Hbounds as (Hb & He & Hlt).
  destruct k as [i | i x | a b | fuel]; cbn [perform call_ok] in *.
  - destruct (Z.le_gt_cases (Internal.size v) i) as [Hout | Hlti].
    + exists (Throw (out_of_range "Index outside of the slice")), m, l.
      unfold bind. rewrite container_at_unfold.
      destruct (Z.geb_spec i (Internal.size v)); [| lia].
      split; [reflexivity |]. split; [discriminate |]. split; [exact Hin | reflexivity].
    + assert (Hi : 0 <= i < Internal.size v) by size_t_lia.
      destruct (container_at_in_bounds m v l i Hin Hi) as (Hat & _ & Hpos).
      destruct (load_in_range m l
                  {| obj := ContainerSlice.cont_ v; pos := Internal.begin_ v + i |})
        as (x & _ & Hload); [exact Hl | cbn; size_t_lia |].
      exists (Ok tt), m, l.
      unfold bind. rewrite Hat, Hload.
      split; [reflexivity |]. split; [discriminate |]. split; [exact Hin | reflexivity].
  - destruct (Z.le_gt_cases (Internal.size v) i) as [Hout | Hlti].
    + exists (Throw (out_of_range "Index outside of the slice")), m, l.
      unfold bind. rewrite container_at_unfold.
      destruct (Z.geb_spec i (Internal.size v)); [| lia].
      split; [reflexivity |]. split; [discriminate |]. split; [exact Hin | reflexivity].
    + assert (Hi : 0 <= i < Internal.size v) by size_t_lia.
      destruct (container_at_in_bounds m v l i Hin Hi) as (Hat & _ & Hpos).
      exists (Ok tt),
        (<[ContainerSlice.cont_ v := <[Z.to_nat (Internal.begin_ v + i) := x]> l]> m),
        (<[Z.to_nat (Internal.begin_ v + i) := x]> l).
      unfold bind. rewrite Hat.
      rewrite (assign_in_range m l
                 {| obj := ContainerSlice.cont_ v; pos := Internal.begin_ v + i |} x Hl)
        by (cbn; size_t_lia).
      cbn [obj pos].
      split; [reflexivity |]. split; [discriminate |]. split; [| discriminate].
      split; [exact Hbounds |]. split; [apply lookup_insert_eq |].
      rewrite length_insert. exact Hle.
  - destruct Hok as [Ha Hb'].
    pose proof (container_subSlice_defined m v l a b Hin Ha Hb') as Hdef.
    rewrite bind_discard, container_subSlice_store.
    eexists _, m, l.
    split; [reflexivity |].
    split; [destruct (fst (ContainerSlice.subSlice v a b m)); congruence |].
    split; [exact Hin | reflexivity].
  - destruct (container_iteration m v l fuel Hin Hok) as (elems & -> & _).
    exists (Ok tt), m, l.
    split; [reflexivity |]. split; [discriminate |]. split; [exact Hin | reflexivity].
Qed.

(** The same for any number of calls, one after the other. *)
Lemma run_keeps_in_bounds (v : ContainerSlice.Slice) (calls : list (call T)) :
  Forall (call_ok (Internal.size v)) calls ->
  forall m (l : list T),
    in_bounds m v l ->
    exists os m' l',
      run v calls m = Some (os, m') /\
      Forall (fun o => o <> Undefined) os /\
      in_bounds m' v l'.
Proof.
  induction 1 as [| k calls Hk _ IH]; intros m l Hin.
  - exists [], m, l. split; [reflexivity |]. split; [constructor | exact Hin].
  - destruct (perform_keeps_in_bounds m v l k Hin Hk) as (o & m1 & l1 & Hp & Ho & Hin1 & _).
    destruct (IH m1 l1 Hin1) as (os & m2 & l2 & Hr & Hos & Hin2).
    exists (o :: os), m2, l2.
    cbn [run]. rewrite Hp, Hr.
    split; [reflexivity |]. split; [constructor; assumption | exact Hin2].
Qed.

Lemma container_view_for_life m c (begin end' : Z) (v : ContainerSlice.Slice) :
  is_size_t begin -> is_size_t end' ->
  ContainerSlice.Slice_ctor c begin end' m = (Ok v, m) ->
  (Internal.begin_ v = begin /\ Internal.end_ v = end' /\
   ContainerSlice.cont_ v = c /\ Internal.begin_ v < Internal.end_ v) /\
  (forall calls : list (call T),
     Forall (call_ok (Internal.size v)) calls ->
     exists os m',
       run v calls m = Some (os, m') /\
       Forall (fun o => o <> Undefined) os /\
       ContainerSlice.Slice_ctor c begin end' m' = (Ok v, m')) /\
  (forall (k : call T) o m',
     call_ok (Internal.size v) k ->
     perform v k m = Some (o, m') -> succeeds o = false -> m' = m) /\
  (forall (a b : Z) (sub : ContainerSlice.Slice) m',
     is_size_t a -> is_size_t b ->
     ContainerSlice.subSlice v a b m = (Ok sub, m') ->
     m' = m /\ ContainerSlice.cont_ sub = c /\
     begin <= Internal.begin_ sub /\ Internal.begin_ sub < Internal.end_ sub /\
     Internal.end_ sub <= end').
Proof.
  intros Hb He Hctor.
  destruct (container_ctor_in_bounds _ _ _ _ _ _ Hb He Hctor)
    as (_ & Hc & Hvb & Hve & l & Hin).
  pose proof Hin as ((_ & _ & Hlt) & _).
  split; [auto |]. split; [| split].
  - intros calls Hcalls.
    destruct (run_keeps_in_bounds v calls Hcalls m l Hin) as (os & m' & l' & Hr & Hos & Hin').
    exists os, m'. split; [exact Hr |]. split; [exact Hos |].
    rewrite <- Hc, <- Hvb, <- Hve. exact (in_bounds_ctor m' v l' Hin').
  - intros k o m' Hk Hp Hfail.
    destruct (perform_keeps_in_bounds m v l k Hin Hk) as (o1 & m1 & l1 & Hp1 & _ & _ & Hsame).
    rewrite Hp1 in Hp. injection Hp as -> ->. exact (Hsame Hfail).
  - intros a b sub m' Ha Hb' Hsub.
    destruct (container_subSlice_Ok _ _ _ _ _ _ _ Hin Ha Hb' Hsub)
      as (-> & Hab & Hbsz & -> & _).
    pose proof Hin as ((Hvb' & Hve' & _) & _).
    rewrite (size_exact v Hvb' Hve' Hlt) in Hbsz.
    cbn. unfold is_size_t in *. repeat split; first [exact Hc | lia].
Qed.

Lemma pointer_view_for_life m ptr (begin end' : Z) (w : PointerSlice.Slice) :
  is_size_t begin -> is_size_t end' ->
  PointerSlice.Slice_ctor (T:=T) ptr begin end' m = (Ok w, m) ->
  (Internal.begin_ w = begin /\ Internal.end_ w = end' /\
   PointerSlice.ptr_ w = ptr /\ Internal.begin_ w < Internal.end_ w) /\
  (forall i : Z, snd (PointerSlice.at_ (T:=T) w i m) = m) /\
  (forall a b : Z, snd (PointerSlice.subSlice (T:=T) w a b m) = m) /\
  (forall (a b : Z) (sub : PointerSlice.Slice) m',
     is_size_t a -> is_size_t b ->
     PointerSlice.subSlice w a b m = (Ok sub, m') ->
     m' = m /\ PointerSlice.ptr_ sub = ptr /\
     begin <= Internal.begin_ sub /\ Internal.begin_ sub < Internal.end_ sub /\
     Internal.end_ sub <= end').
Proof.
  intros Hb He Hctor.
  destruct (pointer_ctor_bounds _ _ _ _ _ _ Hb He Hctor)
    as (_ & Hp & Hvb & Hve & Hbounds & _).
  pose proof Hbounds as (Hvb' & Hve' & Hlt).
  split; [auto |].
  split; [intros i; apply pointer_at_store |].
  split; [intros a b; apply pointer_subSlice_store |].
  intros a b sub m' Ha Hb' Hsub.
  destruct (pointer_subSlice_Ok _ _ _ _ _ _ Hbounds Ha Hb' Hsub)
    as (-> & Hab & Hbsz & -> & _).
  rewrite (size_exact w Hvb' Hve' Hlt) in Hbsz.
  cbn. unfold is_size_t in *. repeat split; first [exact Hp | lia].
Qed.

(** C8. A view holds the bounds and the store reference its
    constructor was given, with [begin_ < end_].  Whatever calls follow
    ([at] to read, [at] to assign, [subSlice], a traversal), succeeding
    or failing, the view is afterwards still the one the constructor
    returns for those arguments; a call that fails leaves the store it
    found; a sub-slice has [begin_ < end_] inside the parent's bounds
    and the parent's store.  A constructor never writes to the store,
    and yields a view only when [begin < end]. *)
Theorem view_bounds_fixed_for_life :
  (forall m c (begin end' : Z) (v : ContainerSlice.Slice),
     is_size_t begin -> is_size_t end' ->
     ContainerSlice.Slice_ctor c begin end' m = (Ok v, m) ->
     (Internal.begin_ v = begin /\ Internal.end_ v = end' /\
      ContainerSlice.cont_ v = c /\ Internal.begin_ v < Internal.end_ v) /\
     (forall calls : list (call T),
        Forall (call_ok (Internal.size v)) calls ->
        exists os m',
          run v calls m = Some (os, m') /\
          Forall (fun o => o <> Undefined) os /\
          ContainerSlice.Slice_ctor c begin end' m' = (Ok v, m')) /\
     (forall (k : call T) o m',
        call_ok (Internal.size v) k ->
        perform v k m = Some (o, m') -> succeeds o = false -> m' = m) /\
     (forall (a b : Z) (sub : ContainerSlice.Slice) m',
        is_size_t a -> is_size_t b ->
        ContainerSlice.subSlice v a b m = (Ok sub, m') ->
        m' = m /\ ContainerSlice.cont_ sub = c /\
        begin <= Internal.begin_ sub /\ Internal.begin_ sub < Internal.end_ sub /\
        Internal.end_ sub <= end')) /\
  (forall m ptr (begin end' : Z) (w : PointerSlice.Slice),
     is_size_t begin -> is_size_t end' ->
     PointerSlice.Slice_ctor (T:=T) ptr begin end' m = (Ok w, m) ->
     (Internal.begin_ w = begin /\ Internal.end_ w = end' /\
      PointerSlice.ptr_ w = ptr /\ Internal.begin_ w < Internal.end_ w) /\
     (forall i : Z, snd (PointerSlice.at_ (T:=T) w i m) = m) /\
     (forall a b : Z, snd (PointerSlice.subSlice (T:=T) w a b m) = m) /\
     (forall (a b : Z) (sub : PointerSlice.Slice) m',
        is_size_t a -> is_size_t b ->
        PointerSlice.subSlice w a b m = (Ok sub, m') ->
        m' = m /\ PointerSlice.ptr_ sub = ptr /\
        begin <= Internal.begin_ sub /\ Internal.begin_ sub < Internal.end_ sub /\
        Internal.end_ sub <= end')) /\
  (forall m c ptr (begin end' : Z),
     snd (ContainerSlice.Slice_ctor (T:=T) c begin end' m) = m /\
     snd (PointerSlice.Slice_ctor (T:=T) ptr begin end' m) = m /\
     (succeeds (fst (ContainerSlice.Slice_ctor (T:=T) c begin end' m)) = true ->
        begin < end') /\
     (succeeds (fst (PointerSlice.Slice_ctor (T:=T) ptr begin end' m)) = true ->
        begin < end')).
Proof.
  split; [| split].
  - intros m c begin end' v. apply container_view_for_life.
  - intros m ptr begin end' w. apply pointer_view_for_life.
  - intros m c ptr begin end'.
    split; [apply container_ctor_store |].
    split; [apply pointer_ctor_store |].
    rewrite container_ctor_unfold, pointer_ctor_unfold.
    destruct (Z.geb_spec begin end'); split; intros Hs; first [discriminate | lia].
Qed.

End Lifetime.


(** ** The properties on the examples of the documentation *)

Lemma size_t_1 : is_size_t 1.
Proof. size_t_lia. Qed.

Lemma size_t_3 : is_size_t 3.
Proof. size_t_lia. Qed.

Lemma size_t_0 : is_size_t 0.
Proof. size_t_lia. Qed.

Lemma size_t_2 : is_size_t 2.
Proof. size_t_lia. Qed.

Lemma one_two_constructed :
  ContainerSlice.Slice_ctor 1 1 3 vec_store = (Ok one_two, vec_store).
Proof. reflexivity. Qed.

Lemma ptr_one_two_constructed :
  PointerSlice.Slice_ctor vec_data 1 3 vec_store = (Ok ptr_one_two, vec_store).
Proof. reflexivity. Qed.

Lemma calculateSubSliceBounds_second_throw_unreachable_witness :
  Internal.calculateSubSliceBounds one_two 0 2 = Ok (0 + 1, 2 + 1).
Proof.
  apply (calculateSubSliceBounds_second_throw_unreachable one_two 0 2
           size_t_1 size_t_3 ltac:(reflexivity) size_t_0 size_t_2
           ltac:(reflexivity) ltac:(discriminate)).
Defined.

Lemma construction_checks_range_witness :
  fails_with InvalidRange (fst (ContainerSlice.Slice_ctor 1 3 1 vec_store)) = true /\
  fails_with InvalidRange (fst (PointerSlice.Slice_ctor nullptr 3 1 vec_store)) = true /\
  fails_with InvalidRange (fst (ContainerSlice.Slice_ctor 1 1 9 vec_store)) = true /\
  exists v : ContainerSlice.Slice,
    ContainerSlice.Slice_ctor 1 1 3 vec_store = (Ok v, vec_store) /\
    Internal.size v = 3 - 1.
Proof.
  destruct (construction_checks_range vec_store 1 nullptr [0; 1; 2; 3; 4] 3 1)
    as (Hswapped & _ & _).
  destruct (construction_checks_range vec_store 1 nullptr [0; 1; 2; 3; 4] 1 9)
    as (_ & Hlarge & _).
  destruct (construction_checks_range vec_store 1 nullptr [0; 1; 2; 3; 4] 1 3)
    as (_ & _ & Hfits).
  split; [apply Hswapped; discriminate |].
  split; [apply Hswapped; discriminate |].
  split; [apply Hlarge; reflexivity |].
  apply Hfits.
  - reflexivity.
  - exact size_t_3.
  - split; [discriminate | reflexivity].
  - discriminate.
Defined.

Lemma pointer_construction_checks_null_witness :
  fails_with NullPointer (fst (PointerSlice.Slice_ctor nullptr 1 3 vec_store)) = true.
Proof.
  apply (pointer_construction_checks_null vec_store {| obj := 1; pos := 0 |} 1 3).
  reflexivity.
Defined.

Lemma makeSlice_whole_empty_fails_witness :
  fails_with InvalidRange (fst (makeSlice_whole 1 empty_vec_store)) = true.
Proof.
  apply (makeSlice_whole_empty_fails empty_vec_store 1 []); reflexivity.
Defined.

Lemma at_is_store_at_offset_witness :
  ContainerSlice.at_ (H:=libstdcxx) one_two 0 vec_store
    = cont_at (H:=libstdcxx) 1 (1 + 0) vec_store.
Proof.
  apply (at_is_store_at_offset (H:=libstdcxx) vec_store 1 1 3 one_two 0
           size_t_1 size_t_3 one_two_constructed).
  split; [discriminate | reflexivity].
Defined.

Lemma at_fails_iff_index_beyond_size_witness :
  (fails_with IndexOutOfRange (fst (ContainerSlice.at_ (H:=libstdcxx) one_two 2 vec_store)) = true
     <-> Internal.size one_two <= 2) /\
  (fails_with IndexOutOfRange (fst (PointerSlice.at_ ptr_one_two 2 vec_store)) = true
     <-> Internal.size ptr_one_two <= 2).
Proof.
  split.
  - apply (proj1 (at_fails_iff_index_beyond_size (H:=libstdcxx)) vec_store 1%positive 1 3 one_two 2
             size_t_1 size_t_3 ltac:(discriminate) one_two_constructed).
  - apply (proj1 (proj2 (at_fails_iff_index_beyond_size (H:=libstdcxx))) vec_store vec_data 1 3
             ptr_one_two 2 size_t_1 size_t_3 ltac:(discriminate) ptr_one_two_constructed).
Defined.

Lemma subSlice_at_is_at_offset_witness :
  exists sub : ContainerSlice.Slice,
    ContainerSlice.subSlice one_two 0 1 vec_store = (Ok sub, vec_store) /\
    Internal.size sub = 1 - 0 /\
    ContainerSlice.at_ (H:=libstdcxx) sub 0 vec_store
      = ContainerSlice.at_ (H:=libstdcxx) one_two (0 + 0) vec_store.
Proof.
  eexists. split; [reflexivity |].
  destruct (proj1 (subSlice_at_is_at_offset (H:=libstdcxx))
              vec_store vec_store 1%positive 1 3 one_two _ 0 1 0
              size_t_1 size_t_3 size_t_0 size_t_1 one_two_constructed eq_refl
              ltac:(split; [discriminate | reflexivity]))
    as (_ & _ & Hsize & Hat & _).
  split; [exact Hsize | exact Hat].
Defined.

Lemma subSlice_edge_cases_witness :
  (exists sub : ContainerSlice.Slice,
     ContainerSlice.subSlice one_two 1 2 vec_store = (Ok sub, vec_store) /\
     Internal.size sub = 2 - 1) /\
  fails_with InvalidRange (fst (ContainerSlice.subSlice one_two 1 0 vec_store)) = true /\
  fails_with InvalidRange (fst (ContainerSlice.subSlice one_two 2 3 vec_store)) = true /\
  fails_with InvalidRange (fst (PointerSlice.subSlice ptr_one_two 2 3 vec_store)) = true.
Proof.
  destruct (proj1 (subSlice_edge_cases (T:=Z)) vec_store 1%positive 1 3 one_two 1 2
              size_t_1 size_t_3 size_t_1 one_two_constructed)
    as (Hupper & Hzero & _).
  destruct (proj1 (subSlice_edge_cases (T:=Z)) vec_store 1%positive 1 3 one_two 2 3
              size_t_1 size_t_3 size_t_2 one_two_constructed)
    as (_ & _ & Hbeyond).
  destruct (proj2 (subSlice_edge_cases (T:=Z)) vec_store vec_data 1 3 ptr_one_two 2 3
              size_t_1 size_t_3 size_t_2 ptr_one_two_constructed)
    as (_ & _ & Hbeyond').
  split; [apply Hupper; reflexivity |].
  split; [exact Hzero |].
  split; [apply Hbeyond; discriminate | apply Hbeyond'; discriminate].
Defined.

Lemma iteration_visits_the_view_witness :
  (exists elems : list Z,
     range_for 2 (ContainerSlice.begin one_two) (ContainerSlice.end' one_two) vec_store
       = Some (Ok elems, vec_store) /\
     Z.of_nat (length elems) = Internal.size one_two) /\
  (exists elems : list Z,
     range_for 2 (PointerSlice.begin ptr_one_two) (PointerSlice.end' ptr_one_two) vec_store
       = Some (Ok elems, vec_store) /\
     Z.of_nat (length elems) = Internal.size ptr_one_two).
Proof.
  split.
  - destruct (proj1 (iteration_visits_the_view (H:=libstdcxx))
                vec_store 1%positive 1 3 one_two 2%nat
                size_t_1 size_t_3 one_two_constructed ltac:(discriminate))
      as (elems & Hwalk & _ & Hlen & _).
    exists elems. split; [exact Hwalk | exact Hlen].
  - destruct (proj2 (iteration_visits_the_view (H:=libstdcxx))
                vec_store {| obj := 1; pos := 0 |} [0; 1; 2; 3; 4] 1 3 ptr_one_two 2%nat
                size_t_1 size_t_3 ptr_one_two_constructed eq_refl
                ltac:(discriminate) ltac:(discriminate) ltac:(discriminate))
      as (elems & Hwalk & _ & Hlen & _).
    exists elems. split; [exact Hwalk | exact Hlen].
Defined.

Lemma example_calls_ok : Forall (call_ok (Internal.size one_two)) example_calls.
Proof.
  unfold example_calls.
  repeat constructor; cbn; unfold is_size_t, SIZE_MAX; try lia; discriminate.
Qed.

Lemma view_bounds_fixed_for_life_witness :
  exists os m',
    run (H:=libstdcxx) one_two example_calls vec_store = Some (os, m') /\
    Forall (fun o => o <> Undefined) os /\
    ContainerSlice.Slice_ctor 1 1 3 m' = (Ok one_two, m').
Proof.
  destruct (proj1 (view_bounds_fixed_for_life (H:=libstdcxx))
              vec_store 1%positive 1 3 one_two
              size_t_1 size_t_3 one_two_constructed)
    as (_ & Hrun & _).
  exact (Hrun example_calls example_calls_ok).
Defined.

(** ** The scenarios of the documentation, evaluated *)

Example one_two_size : Internal.size one_two = 2.
Proof. reflexivity. Qed.

Example one_two_reads :
  (let* r := ContainerSlice.at_ (H:=libstdcxx) one_two 0 in load r) vec_store
    = (Ok 1, vec_store) /\
  (let* r := ContainerSlice.at_ (H:=libstdcxx) one_two 1 in load r) vec_store
    = (Ok 2, vec_store).
Proof. split; reflexivity. Qed.

(** [one_two.at(0) *= 2; one_two.at(1) *= 3;] *)
Example one_two_writes :
  (let* r0 := ContainerSlice.at_ (H:=libstdcxx) one_two 0 in
   let* x0 := load r0 in
   let* _ := assign r0 (x0 * 2) in
   let* r1 := ContainerSlice.at_ (H:=libstdcxx) one_two 1 in
   let* x1 := load r1 in
   assign r1 (x1 * 3)) vec_store
    = (Ok tt, {[ 1%positive := [0; 2; 6; 3; 4] ]}).
Proof. reflexivity. Qed.

Example three_four_iterates :
  range_for 2 (ContainerSlice.begin three_four) (ContainerSlice.end' three_four) vec_store
    = Some (Ok [3; 4], vec_store).
Proof. reflexivity. Qed.

Example one_two_subSlice :
  (let* sub := ContainerSlice.subSlice one_two 0 1 in
   let* r := ContainerSlice.at_ (H:=libstdcxx) sub 0 in
   let* x := load r in
   ret (Internal.size sub, x)) vec_store
    = (Ok (1, 1), vec_store).
Proof. reflexivity. Qed.

Example example_calls_run :
  run (H:=libstdcxx) one_two example_calls vec_store
    = Some ([Ok tt; Ok tt; Ok tt;
             Throw (out_of_range "Index outside of the slice");
             Ok tt;
             Throw (out_of_range "Begin must be smaller than end");
             Ok tt],
            {[ 1%positive := [0; 2; 6; 3; 4] ]}).
Proof. reflexivity. Qed.

(** ** Further properties: arithmetic and safety of [at] *)

Section AccessSafety.
Context {T : Type} `{StdLib}.
Implicit Types (m : gmap positive (list T)) (c : positive) (ptr : pointer).

Lemma rangeCheck_Ok (s : Internal.SliceBase) (index : Z) :
  Internal.rangeCheck s index = Ok tt <-> index < Internal.size s.
Proof.
  unfold Internal.rangeCheck.
  destruct (Z.geb_spec index (Internal.size s)); split;
    first [discriminate | reflexivity | lia].
Qed.

(** X1. The comment in [at]: with [begin_ < end_] and an index that
    [rangeCheck] lets through, [begin_ + index] does not wrap around
    and stays below [end_]. *)
Theorem at_addition_cannot_overflow (s : Internal.SliceBase) (index : Z) :
  bounds_ok s -> 0 <= index ->
  Internal.rangeCheck s index = Ok tt ->
  size_t_wrap (Internal.begin_ s + index) = Internal.begin_ s + index /\
  Internal.begin_ s + index < Internal.end_ s.
Proof.
  intros (Hb & He & Hlt) Hi Hcheck.
  apply rangeCheck_Ok in Hcheck. rewrite (size_exact s Hb He Hlt) in Hcheck.
  split; [apply size_t_wrap_small; size_t_lia | lia].
Qed.

Lemma size_t_wrap_nonneg (x : Z) : 0 <= size_t_wrap x.
Proof.
  unfold size_t_wrap, SIZE_MAX. apply Z.mod_pos_bound. lia.
Qed.

(** X2. A container view cannot be used to reach outside its
    container, even when the container has shrunk since the view was
    made: whatever the view's bounds and the index are, as long as the
    container exists [at] either throws or yields a reference to one of
    the container's present elements, so reading or assigning through
    it is defined. *)
Theorem container_at_never_out_of_container m (v : ContainerSlice.Slice)
    (l : list T) (i : Z) :
  m !! ContainerSlice.cont_ v = Some l ->
  (exists e, ContainerSlice.at_ v i m = (Throw e, m) /\
             (e = out_of_range "Index outside of the slice"
              \/ e = out_of_range container_what)) \/
  (exists p : place,
     ContainerSlice.at_ v i m = (Ok p, m) /\
     obj p = ContainerSlice.cont_ v /\
     0 <= pos p < Z.of_nat (length l) /\
     (exists x, load p m = (Ok x, m)) /\
     (forall y, succeeds (fst (assign p y m)) = true)).
Proof.
  intros Hl. rewrite container_at_unfold.
  destruct (i >=? Internal.size v).
  { left. eexists. split; [reflexivity | left; reflexivity]. }
  unfold cont_at. rewrite Hl.
  set (n := size_t_wrap (Internal.begin_ v + i)).
  pose proof (size_t_wrap_nonneg (Internal.begin_ v + i)) as Hn. fold n in Hn.
  destruct (Z.ltb_spec n (Z.of_nat (length l))) as [Hlt | Hge].
  - right. exists {| obj := ContainerSlice.cont_ v; pos := n |}.
    split; [reflexivity |]. split; [reflexivity |]. split; [cbn; lia |].
    split.
    + destruct (load_in_range m l {| obj := ContainerSlice.cont_ v; pos := n |})
        as (x & _ & Hload); [exact Hl | cbn; lia |].
      exists x. exact Hload.
    + intros y.
      rewrite (assign_in_range m l {| obj := ContainerSlice.cont_ v; pos := n |} y Hl)
        by (cbn; lia).
      reflexivity.
  - left. eexists. split; [reflexivity | right; reflexivity].
Qed.

End AccessSafety.

(** ** Further properties: the factories *)

Section FactoryProperties.
Context {T : Type} `{StdLib}.
Implicit Types (m : gmap positive (list T)) (c : positive) (ptr : pointer).

(** With the container at hand, the factories are the constructor with
    [0] and [cont.size()] filled in. *)
Lemma factories_unfold m c (l : list T) :
  m !! c = Some l ->
  makeSlice_whole c m = ContainerSlice.Slice_ctor c 0 (Z.of_nat (length l)) m /\
  (forall begin, makeSliceFrom c begin m
                 = ContainerSlice.Slice_ctor c begin (Z.of_nat (length l)) m) /\
  (forall end', makeSliceUntil c end' m = ContainerSlice.Slice_ctor c 0 end' m) /\
  (forall begin end', makeSlice c begin end' m = ContainerSlice.Slice_ctor c begin end' m).
Proof.
  intros Hl. unfold makeSlice_whole, makeSliceFrom, makeSliceUntil, makeSlice, bind, cont_size.
  rewrite Hl. repeat split.
Qed.

Lemma in_bounds_size m (v : ContainerSlice.Slice) (l : list T) :
  in_bounds m v l -> 1 <= Internal.size v <= Z.of_nat (length l).
Proof.
  intros ((Hb & He & Hlt) & _ & Hle).
  rewrite (size_exact v Hb He Hlt). size_t_lia.
Qed.

Lemma container_ctor_fits m m' c (l : list T) (begin end' : Z) (v : ContainerSlice.Slice) :
  m !! c = Some l -> is_size_t begin -> is_size_t end' ->
  ContainerSlice.Slice_ctor c begin end' m = (Ok v, m') ->
  in_bounds m v l /\ 1 <= Internal.size v <= Z.of_nat (length l).
Proof.
  intros Hl Hb He Hctor.
  destruct (container_ctor_in_bounds _ _ _ _ _ _ Hb He Hctor)
    as (_ & Hc & _ & _ & l' & Hin).
  assert (l' = l) as ->.
  { destruct Hin as (_ & Hl' & _). rewrite Hc, Hl in Hl'. congruence. }
  split; [exact Hin | exact (in_bounds_size m v l Hin)].
Qed.

(** X3. However a container view is obtained (the constructor behind
    [makeSlice], the whole-container factory, [makeSliceFrom],
    [makeSliceUntil], or [subSlice] of a parent whose container may
    have shrunk in the meantime), whenever the call succeeds the view
    has [begin_ < end_ <= cont.size()] for the container as it is now,
    and between 1 and [cont.size()] elements. *)
Theorem every_container_view_fits m c (l : list T) (v : ContainerSlice.Slice) :
  m !! c = Some l -> is_size_t (Z.of_nat (length l)) ->
  (forall begin end', is_size_t begin -> is_size_t end' ->
     makeSlice c begin end' m = (Ok v, m) ->
     in_bounds m v l /\ 1 <= Internal.size v <= Z.of_nat (length l)) /\
  (makeSlice_whole c m = (Ok v, m) ->
     in_bounds m v l /\ 1 <= Internal.size v <= Z.of_nat (length l)) /\
  (forall begin, is_size_t begin ->
     makeSliceFrom c begin m = (Ok v, m) ->
     in_bounds m v l /\ 1 <= Internal.size v <= Z.of_nat (length l)) /\
  (forall end', is_size_t end' ->
     makeSliceUntil c end' m = (Ok v, m) ->
     in_bounds m v l /\ 1 <= Internal.size v <= Z.of_nat (length l)) /\
  (forall (parent : ContainerSlice.Slice) (a b : Z),
     bounds_ok parent -> ContainerSlice.cont_ parent = c ->
     is_size_t a -> is_size_t b ->
     ContainerSlice.subSlice parent a b m = (Ok v, m) ->
     in_bounds m v l /\ 1 <= Internal.size v <= Z.of_nat (length l)).
Proof.
  intros Hl Hlen.
  destruct (factories_unfold m c l Hl) as (Hwhole & Hfrom & Huntil & Hmake).
  assert (H0 : is_size_t 0) by size_t_lia.
  split; [| split; [| split; [| split]]].
  - intros begin end' Hb He. rewrite Hmake. apply container_ctor_fits; assumption.
  - rewrite Hwhole. apply container_ctor_fits; assumption.
  - intros begin Hb. rewrite Hfrom. apply container_ctor_fits; assumption.
  - intros end' He. rewrite Huntil. apply container_ctor_fits; assumption.
  - intros parent a b Hparent Hc Ha Hb Hsub.
    rewrite container_subSlice_unfold in Hsub.
    destruct (calculateSubSliceBounds_cases parent a b Hparent Ha Hb)
      as [[_ Hcalc] | [[Ha' Hb'] Hcalc]];
      rewrite Hcalc in Hsub; [discriminate |].
    cbn [fst snd] in Hsub. rewrite Hc in Hsub.
    destruct Hparent as (Hpb & Hpe & Hplt).
    rewrite (size_exact parent Hpb Hpe Hplt) in Ha', Hb'.
    apply (container_ctor_fits m m c l (a + Internal.begin_ parent)
             (b + Internal.begin_ parent) v Hl); [size_t_lia | size_t_lia | exact Hsub].
Qed.

(** The traversal of a view that fits its store yields the window
    [begin_, end_) of the container's sequence. *)
Lemma container_iteration_window m (v : ContainerSlice.Slice) (l : list T) (fuel : nat) :
  in_bounds m v l -> Internal.size v <= Z.of_nat fuel ->
  range_for fuel (ContainerSlice.begin v) (ContainerSlice.end' v) m
    = Some (Ok (take (Z.to_nat (Internal.size v)) (drop (Z.to_nat (Internal.begin_ v)) l)), m).
Proof.
  intros ((Hb & He & Hlt) & Hl & Hle) Hfuel.
  pose proof (size_exact v Hb He Hlt) as Hsz.
  unfold ContainerSlice.begin, ContainerSlice.end', advance, cont_begin. cbn [obj pos].
  replace (0 + Internal.end_ v)
    with (0 + Internal.begin_ v + Z.of_nat (Z.to_nat (Internal.size v))) by lia.
  rewrite (range_for_places m _ l _ Hl) by size_t_lia.
  reflexivity.
Qed.

Lemma container_ctor_succeeds m c (l : list T) (begin end' : Z) :
  m !! c = Some l -> begin < end' -> end' <= Z.of_nat (length l) ->
  ContainerSlice.Slice_ctor c begin end' m
    = (Ok {| ContainerSlice.base := {| Internal.begin_ := begin; Internal.end_ := end' |};
             ContainerSlice.cont_ := c |}, m).
Proof.
  intros Hl Hlt Hle. rewrite container_ctor_unfold, Hl.
  destruct (Z.geb_spec begin end'); [lia |].
  destruct (Z.gtb_spec end' (Z.of_nat (length l))); [lia | reflexivity].
Qed.

Lemma container_ctor_fails m c (l : list T) (begin end' : Z) :
  m !! c = Some l -> end' <= begin \/ Z.of_nat (length l) < end' ->
  fails_with InvalidRange (fst (ContainerSlice.Slice_ctor c begin end' m)) = true.
Proof.
  intros Hl Hbad. rewrite container_ctor_unfold, Hl.
  destruct (Z.geb_spec begin end'); [reflexivity |].
  destruct (Z.gtb_spec end' (Z.of_nat (length l))); [reflexivity | lia].
Qed.

(** X4. [makeSlice(cont)] on a container that is not empty succeeds
    with a view of all [cont.size()] elements: [at(i)] is [cont.at(i)]
    for every [i < cont.size()], and a traversal yields the container's
    whole sequence. *)
Theorem makeSlice_whole_views_everything m c (l : list T) :
  m !! c = Some l -> (0 < length l)%nat -> is_size_t (Z.of_nat (length l)) ->
  exists v : ContainerSlice.Slice,
    makeSlice_whole c m = (Ok v, m) /\
    Internal.size v = Z.of_nat (length l) /\
    (forall i, 0 <= i < Z.of_nat (length l) ->
       ContainerSlice.at_ v i m = cont_at c i m) /\
    (forall fuel : nat, (length l <= fuel)%nat ->
       range_for fuel (ContainerSlice.begin v) (ContainerSlice.end' v) m
         = Some (Ok l, m)).
Proof.
  intros Hl Hpos Hlen.
  destruct (factories_unfold m c l Hl) as (-> & _).
  rewrite (container_ctor_succeeds m c l 0 (Z.of_nat (length l)) Hl) by lia.
  eexists. split; [reflexivity |].
  set (v := {| ContainerSlice.base := {| Internal.begin_ := 0;
                                         Internal.end_ := Z.of_nat (length l) |};
               ContainerSlice.cont_ := c |}).
  assert (Hin : in_bounds m v l).
  { repeat split; cbn; first [exact Hl | size_t_lia]. }
  assert (Hsz : Internal.size v = Z.of_nat (length l)).
  { destruct Hin as ((Hb & He & Hlt) & _). rewrite (size_exact v Hb He Hlt). cbn. lia. }
  split; [exact Hsz |]. split.
  - intros i Hi. rewrite <- Hsz in Hi.
    destruct (container_at_in_bounds m v l i Hin Hi) as (_ & Hat & _). exact Hat.
  - intros fuel Hfuel.
    rewrite (container_iteration_window m v l fuel Hin) by lia.
    rewrite Hsz. cbn [Internal.begin_ ContainerSlice.base v].
    rewrite Nat2Z.id. cbn [Z.to_nat drop]. rewrite firstn_all. reflexivity.
Qed.

(** X5. [makeSliceFrom(cont, begin)] succeeds exactly for
    [begin < cont.size()]: the view then has [cont.size() - begin]
    elements and a traversal yields the container's sequence without
    its first [begin] elements; for [begin >= cont.size()] it fails
    with InvalidRange. *)
Theorem makeSliceFrom_views_the_tail m c (l : list T) (begin : Z) :
  m !! c = Some l -> is_size_t begin -> is_size_t (Z.of_nat (length l)) ->
  (begin < Z.of_nat (length l) ->
     exists v : ContainerSlice.Slice,
       makeSliceFrom c begin m = (Ok v, m) /\
       Internal.size v = Z.of_nat (length l) - begin /\
       forall fuel : nat, (length l <= fuel)%nat ->
         range_for fuel (ContainerSlice.begin v) (ContainerSlice.end' v) m
           = Some (Ok (drop (Z.to_nat begin) l), m)) /\
  (Z.of_nat (length l) <= begin ->
     fails_with InvalidRange (fst (makeSliceFrom c begin m)) = true).
Proof.
  intros Hl Hb Hlen.
  destruct (factories_unfold m c l Hl) as (_ & Hfrom & _). rewrite Hfrom.
  split.
  - intros Hlt.
    rewrite (container_ctor_succeeds m c l begin (Z.of_nat (length l)) Hl) by lia.
    eexists. split; [reflexivity |].
    set (v := {| ContainerSlice.base := {| Internal.begin_ := begin;
                                           Internal.end_ := Z.of_nat (length l) |};
                 ContainerSlice.cont_ := c |}).
    assert (Hin : in_bounds m v l).
    { repeat split; cbn; first [exact Hl | size_t_lia]. }
    assert (Hsz : Internal.size v = Z.of_nat (length l) - begin).
    { destruct Hin as ((Hb' & He & Hlt') & _). rewrite (size_exact v Hb' He Hlt'). reflexivity. }
    split; [exact Hsz |].
    intros fuel Hfuel.
    rewrite (container_iteration_window m v l fuel Hin) by size_t_lia.
    rewrite Hsz. cbn [Internal.begin_ ContainerSlice.base v].
    rewrite take_ge; [reflexivity |]. rewrite length_drop. size_t_lia.
  - intros Hge. apply (container_ctor_fails m c l); [exact Hl | lia].
Qed.

(** X6. [makeSliceUntil(cont, end)] succeeds exactly for
    [0 < end <= cont.size()]: the view then has [end] elements and a
    traversal yields the first [end] elements of the container; for
    [end == 0] and for [end > cont.size()] it fails with InvalidRange. *)
Theorem makeSliceUntil_views_the_head m c (l : list T) (end' : Z) :
  m !! c = Some l -> is_size_t end' ->
  (0 < end' -> end' <= Z.of_nat (length l) ->
     exists v : ContainerSlice.Slice,
       makeSliceUntil c end' m = (Ok v, m) /\
       Internal.size v = end' /\
       forall fuel : nat, end' <= Z.of_nat fuel ->
         range_for fuel (ContainerSlice.begin v) (ContainerSlice.end' v) m
           = Some (Ok (take (Z.to_nat end') l), m)) /\
  (end' = 0 \/ Z.of_nat (length l) < end' ->
     fails_with InvalidRange (fst (makeSliceUntil c end' m)) = true).
Proof.
  intros Hl He.
  destruct (factories_unfold m c l Hl) as (_ & _ & Huntil & _). rewrite Huntil.
  split.
  - intros Hpos Hle.
    rewrite (container_ctor_succeeds m c l 0 end' Hl) by lia.
    eexists. split; [reflexivity |].
    set (v := {| ContainerSlice.base := {| Internal.begin_ := 0; Internal.end_ := end' |};
                 ContainerSlice.cont_ := c |}).
    assert (Hin : in_bounds m v l).
    { repeat split; cbn; first [exact Hl | size_t_lia]. }
    assert (Hsz : Internal.size v = end').
    { destruct Hin as ((Hb' & He' & Hlt') & _). rewrite (size_exact v Hb' He' Hlt'). cbn. lia. }
    split; [exact Hsz |].
    intros fuel Hfuel.
    rewrite (container_iteration_window m v l fuel Hin) by lia.
    rewrite Hsz. reflexivity.
  - intros Hbad. apply (container_ctor_fails m c l); [exact Hl | lia].
Qed.

(** X7. [makeSliceUntil(ptr, end)]: [end == 0] fails with InvalidRange
    whatever the pointer is; with [end > 0] a null pointer fails with
    NullPointer and a non-null pointer gives the view of
    [ptr[0], ..., ptr[end - 1]], whose [at(i)] is [ptr[i]]. *)
Theorem makeSliceUntil_ptr_views_from_the_pointer m ptr (q : place) (end' : Z) :
  is_size_t end' ->
  (end' = 0 ->
     fails_with InvalidRange (fst (makeSliceUntil_ptr (T:=T) ptr end' m)) = true) /\
  (0 < end' ->
     fails_with NullPointer (fst (makeSliceUntil_ptr (T:=T) nullptr end' m)) = true /\
     exists w : PointerSlice.Slice,
       makeSliceUntil_ptr (T:=T) (pointer_to q) end' m = (Ok w, m) /\
       Internal.size w = end' /\
       forall i, 0 <= i < end' ->
         PointerSlice.at_ (T:=T) w i m = ptr_index (pointer_to q) i m).
Proof.
  intros He. unfold makeSliceUntil_ptr. split.
  - intros ->. rewrite pointer_ctor_unfold. reflexivity.
  - intros Hpos. rewrite !pointer_ctor_unfold.
    destruct (Z.geb_spec 0 end'); [lia |].
    split; [reflexivity |].
    eexists. split; [reflexivity |].
    assert (Hsz : Internal.size {| Internal.begin_ := 0; Internal.end_ := end' |} = end').
    { rewrite size_exact; cbn; size_t_lia. }
    split; [exact Hsz |].
    intros i Hi. rewrite pointer_at_unfold.
    cbn [PointerSlice.base PointerSlice.ptr_ Internal.begin_]. rewrite Hsz.
    destruct (Z.geb_spec i end'); [lia |].
    rewrite size_t_wrap_small by size_t_lia. reflexivity.
Qed.

End FactoryProperties.

(** ** Further properties: sub-slices *)

Section SubSliceProperties.
Context {T : Type} `{StdLib}.
Implicit Types (m : gmap positive (list T)) (c : positive) (ptr : pointer).

(** What [subSlice] of a view that fits its store returns. *)
Lemma container_subSlice_decides m (v : ContainerSlice.Slice) (l : list T) (a b : Z) :
  in_bounds m v l -> is_size_t a -> is_size_t b ->
  (a < b /\ b <= Internal.size v /\
   ContainerSlice.subSlice v a b m
     = (Ok {| ContainerSlice.base :=
                {| Internal.begin_ := a + Internal.begin_ v;
                   Internal.end_ := b + Internal.begin_ v |};
              ContainerSlice.cont_ := ContainerSlice.cont_ v |}, m))
  \/
  (~ (a < b /\ b <= Internal.size v) /\
   succeeds (fst (ContainerSlice.subSlice v a b m)) = false /\
   fails_with InvalidRange (fst (ContainerSlice.subSlice v a b m)) = true).
Proof.
  intros (Hbounds & Hl & Hle) Ha Hb.
  pose proof Hbounds as (Hvb & Hve & Hvlt).
  rewrite container_subSlice_unfold.
  destruct (calculateSubSliceBounds_cases v a b Hbounds Ha Hb)
    as [[Hout ->] | [[Ha' Hb'] ->]].
  { right. split; [lia |]. split; reflexivity. }
  cbn [fst snd]. rewrite container_ctor_unfold, Hl.
  rewrite (size_exact v Hvb Hve Hvlt) in *.
  destruct (Z.geb_spec (a + Internal.begin_ v) (b + Internal.begin_ v)).
  { right. split; [lia |]. split; reflexivity. }
  destruct (Z.gtb_spec (b + Internal.begin_ v) (Z.of_nat (length l))); [lia |].
  left. split; [lia |]. split; [lia | reflexivity].
Qed.

Lemma pointer_subSlice_decides m (w : PointerSlice.Slice) (q : place) (a b : Z) :
  bounds_ok w -> PointerSlice.ptr_ w = pointer_to q -> is_size_t a -> is_size_t b ->
  (a < b /\ b <= Internal.size w /\
   PointerSlice.subSlice (T:=T) w a b m
     = (Ok {| PointerSlice.base :=
                {| Internal.begin_ := a + Internal.begin_ w;
                   Internal.end_ := b + Internal.begin_ w |};
              PointerSlice.ptr_ := PointerSlice.ptr_ w |}, m))
  \/
  (~ (a < b /\ b <= Internal.size w) /\
   succeeds (fst (PointerSlice.subSlice (T:=T) w a b m)) = false /\
   fails_with InvalidRange (fst (PointerSlice.subSlice (T:=T) w a b m)) = true).
Proof.
  intros Hbounds Hq Ha Hb.
  pose proof Hbounds as (Hvb & Hve & Hvlt).
  rewrite pointer_subSlice_unfold.
  destruct (calculateSubSliceBounds_cases w a b Hbounds Ha Hb)
    as [[Hout ->] | [[Ha' Hb'] ->]].
  { right. split; [lia |]. split; reflexivity. }
  cbn [fst snd]. rewrite pointer_ctor_unfold.
  rewrite (size_exact w Hvb Hve Hvlt) in *.
  destruct (Z.geb_spec (a + Internal.begin_ w) (b + Internal.begin_ w)).
  { right. split; [lia |]. split; reflexivity. }
  rewrite Hq. left. split; [lia |]. split; [lia | reflexivity].
Qed.

(** X8. On a constructed view, [subSlice(a, b)] succeeds exactly when
    [a < b] and [b <= size()]; every other pair of bounds fails with
    InvalidRange ([b > size()] included), and nothing else can happen.
    Both specialisations. *)
Theorem subSlice_succeeds_iff_inside :
  (forall m c (begin end' : Z) (v : ContainerSlice.Slice) (a b : Z),
     is_size_t begin -> is_size_t end' -> is_size_t a -> is_size_t b ->
     ContainerSlice.Slice_ctor c begin end' m = (Ok v, m) ->
     (succeeds (fst (ContainerSlice.subSlice v a b m)) = true
        <-> a < b /\ b <= Internal.size v) /\
     (succeeds (fst (ContainerSlice.subSlice v a b m)) = false ->
        fails_with InvalidRange (fst (ContainerSlice.subSlice v a b m)) = true)) /\
  (forall m ptr (begin end' : Z) (w : PointerSlice.Slice) (a b : Z),
     is_size_t begin -> is_size_t end' -> is_size_t a -> is_size_t b ->
     PointerSlice.Slice_ctor (T:=T) ptr begin end' m = (Ok w, m) ->
     (succeeds (fst (PointerSlice.subSlice (T:=T) w a b m)) = true
        <-> a < b /\ b <= Internal.size w) /\
     (succeeds (fst (PointerSlice.subSlice (T:=T) w a b m)) = false ->
        fails_with InvalidRange (fst (PointerSlice.subSlice (T:=T) w a b m)) = true)).
Proof.
  split.
  - intros m c begin end' v a b Hb He Ha Hb' Hctor.
    destruct (container_ctor_in_bounds _ _ _ _ _ _ Hb He Hctor)
      as (_ & _ & _ & _ & l & Hin).
    destruct (container_subSlice_decides m v l a b Hin Ha Hb')
      as [(H1 & H2 & ->) | (Hno & Hs & Hf)].
    + split; [split; [intros _; split; assumption | reflexivity] | discriminate].
    + rewrite Hs. split; [split; [discriminate | intros Hyes; contradiction] |].
      intros _. exact Hf.
  - intros m ptr begin end' w a b Hb He Ha Hb' Hctor.
    destruct (pointer_ctor_bounds _ _ _ _ _ _ Hb He Hctor)
      as (_ & Hp & _ & _ & Hbounds & q & ->).
    destruct (pointer_subSlice_decides m w q a b Hbounds Hp Ha Hb')
      as [(H1 & H2 & ->) | (Hno & Hs & Hf)].
    + split; [split; [intros _; split; assumption | reflexivity] | discriminate].
    + rewrite Hs. split; [split; [discriminate | intros Hyes; contradiction] |].
      intros _. exact Hf.
Qed.

(** The bounds a sub-slice of a sub-slice gets are those of the
    sub-slice taken from the parent directly, with the offsets added. *)
Lemma calculateSubSliceBounds_compose (s : Internal.SliceBase) (a b c d x y : Z) :
  bounds_ok s -> is_size_t a -> is_size_t b -> is_size_t c -> is_size_t d ->
  a < b -> b <= Internal.size s -> x < y ->
  let s1 := {| Internal.begin_ := a + Internal.begin_ s;
               Internal.end_ := b + Internal.begin_ s |} in
  (Internal.calculateSubSliceBounds s1 c d = Ok (x, y) ->
     Internal.calculateSubSliceBounds s (a + c) (a + d) = Ok (x, y)) /\
  (d <= b - a ->
     Internal.calculateSubSliceBounds s (a + c) (a + d) = Ok (x, y) ->
     Internal.calculateSubSliceBounds s1 c d = Ok (x, y)).
Proof.
  intros Hs Ha Hb Hc Hd Hab Hbs Hxy s1.
  pose proof Hs as (Hsb & Hse & Hslt).
  pose proof (size_exact s Hsb Hse Hslt) as Hsz. rewrite Hsz in Hbs.
  assert (Hs1 : bounds_ok s1) by (repeat split; cbn; size_t_lia).
  assert (Hsz1 : Internal.size s1 = b - a).
  { destruct Hs1 as (H1 & H2 & H3). rewrite (size_exact s1 H1 H2 H3). cbn. lia. }
  split.
  - intros Hcalc.
    destruct (calculateSubSliceBounds_cases s1 c d Hs1 Hc Hd)
      as [[_ E] | [[Hc' Hd'] E]]; rewrite E in Hcalc; [discriminate |].
    injection Hcalc as <- <-. cbn [Internal.begin_ s1] in *. rewrite Hsz1 in *.
    destruct (calculateSubSliceBounds_passes s (a + c) (a + d) Hsb Hse Hslt)
      as (_ & _ & _ & ->); try size_t_lia; try lia.
    f_equal. f_equal; lia.
  - intros Hdb Hcalc.
    assert (Hac : a + c < Internal.size s).
    { destruct (Z.lt_ge_cases (a + c) (Internal.size s)) as [Hlt | Hge]; [exact Hlt |].
      rewrite calculateSubSliceBounds_rejects in Hcalc by lia. discriminate. }
    rewrite Hsz in Hac.
    destruct (calculateSubSliceBounds_passes s (a + c) (a + d) Hsb Hse Hslt)
      as (_ & _ & _ & E); try size_t_lia; try lia.
    rewrite E in Hcalc. injection Hcalc as <- <-.
    destruct Hs1 as (H1 & H2 & H3).
    destruct (calculateSubSliceBounds_passes s1 c d H1 H2 H3 Hc Hd)
      as (_ & _ & _ & ->); try (rewrite Hsz1; lia).
    cbn [Internal.begin_ s1]. f_equal. f_equal; lia.
Qed.

Lemma container_subSlice_compose m (v s1 : ContainerSlice.Slice) (l : list T)
    (a b c d : Z) :
  in_bounds m v l ->
  is_size_t a -> is_size_t b -> is_size_t c -> is_size_t d ->
  ContainerSlice.subSlice v a b m = (Ok s1, m) ->
  (forall s2, ContainerSlice.subSlice s1 c d m = (Ok s2, m) ->
     ContainerSlice.subSlice v (a + c) (a + d) m = (Ok s2, m)) /\
  (forall s2, d <= b - a ->
     ContainerSlice.subSlice v (a + c) (a + d) m = (Ok s2, m) ->
     ContainerSlice.subSlice s1 c d m = (Ok s2, m)) /\
  (b - a < d ->
     fails_with InvalidRange (fst (ContainerSlice.subSlice s1 c d m)) = true).
Proof.
  intros Hin Ha Hb Hc Hd Hsub.
  destruct (container_subSlice_Ok _ _ _ _ _ _ _ Hin Ha Hb Hsub)
    as (_ & Hab & Hbs & -> & Hin1).
  pose proof Hin as (Hbounds & _).
  split; [| split].
  - intros s2 H2.
    rewrite container_subSlice_unfold in *.
    cbn [ContainerSlice.base ContainerSlice.cont_] in *.
    destruct (Internal.calculateSubSliceBounds _ c d) as [[x y] | e |] eqn:E;
      [| discriminate | discriminate].
    cbn [fst snd] in H2.
    pose proof (container_ctor_Ok _ _ _ _ _ _ H2) as (_ & _ & Hxy & _).
    destruct (calculateSubSliceBounds_compose v a b c d x y Hbounds Ha Hb Hc Hd Hab Hbs Hxy)
      as (Hfwd & _).
    rewrite (Hfwd E). exact H2.
  - intros s2 Hdb H2.
    rewrite container_subSlice_unfold in *.
    cbn [ContainerSlice.base ContainerSlice.cont_] in *.
    destruct (Internal.calculateSubSliceBounds v (a + c) (a + d)) as [[x y] | e |] eqn:E;
      [| discriminate | discriminate].
    cbn [fst snd] in H2.
    pose proof (container_ctor_Ok _ _ _ _ _ _ H2) as (_ & _ & Hxy & _).
    destruct (calculateSubSliceBounds_compose v a b c d x y Hbounds Ha Hb Hc Hd Hab Hbs Hxy)
      as (_ & Hbwd).
    rewrite (Hbwd Hdb E). exact H2.
  - intros Hbig.
    destruct (container_subSlice_decides m _ l c d Hin1 Hc Hd)
      as [(_ & Hd' & _) | (_ & _ & Hf)]; [| exact Hf].
    exfalso. destruct Hin1 as ((H1 & H2 & H3) & _).
    rewrite (size_exact _ H1 H2 H3) in Hd'. cbn in Hd'. lia.
Qed.

(** X9. Sub-slices compose by adding offsets, and cannot reach outside
    themselves: when [v.subSlice(a, b)] is [s1], every sub-slice
    [s1.subSlice(c, d)] that succeeds is [v.subSlice(a + c, a + d)];
    conversely [v.subSlice(a + c, a + d)] is [s1.subSlice(c, d)] as
    soon as [d <= b - a]; and for [d > b - a] the call on [s1] fails
    with InvalidRange, even where the parent would have allowed it. *)
Theorem subSlice_of_subSlice m c0 (begin end' : Z) (v s1 : ContainerSlice.Slice)
    (a b c d : Z) :
  is_size_t begin -> is_size_t end' ->
  is_size_t a -> is_size_t b -> is_size_t c -> is_size_t d ->
  ContainerSlice.Slice_ctor c0 begin end' m = (Ok v, m) ->
  ContainerSlice.subSlice v a b m = (Ok s1, m) ->
  (forall s2, ContainerSlice.subSlice s1 c d m = (Ok s2, m) ->
     ContainerSlice.subSlice v (a + c) (a + d) m = (Ok s2, m)) /\
  (forall s2, d <= b - a ->
     ContainerSlice.subSlice v (a + c) (a + d) m = (Ok s2, m) ->
     ContainerSlice.subSlice s1 c d m = (Ok s2, m)) /\
  (b - a < d ->
     fails_with InvalidRange (fst (ContainerSlice.subSlice s1 c d m)) = true).
Proof.
  intros Hb0 He0 Ha Hb Hc Hd Hctor Hsub.
  destruct (container_ctor_in_bounds _ _ _ _ _ _ Hb0 He0 Hctor)
    as (_ & _ & _ & _ & l & Hin).
  exact (container_subSlice_compose m v s1 l a b c d Hin Ha Hb Hc Hd Hsub).
Qed.

Lemma window_of_window (l : list T) (p n a k : nat) :
  (a + k <= n)%nat ->
  take k (drop a (take n (drop p l))) = take k (drop (p + a) l).
Proof.
  intros Hle.
  rewrite take_drop_commute, take_take.
  replace (min (a + k) n) with (a + k)%nat by lia.
  rewrite <- take_drop_commute, drop_drop. reflexivity.
Qed.

(** X10. A traversal of [v.subSlice(a, b)] yields the elements [a] to
    [b - 1] of what a traversal of [v] yields. *)
Theorem subSlice_iteration_is_window m c (begin end' : Z) (v sub : ContainerSlice.Slice)
    (a b : Z) (fuel : nat) :
  is_size_t begin -> is_size_t end' -> is_size_t a -> is_size_t b ->
  ContainerSlice.Slice_ctor c begin end' m = (Ok v, m) ->
  ContainerSlice.subSlice v a b m = (Ok sub, m) ->
  Internal.size v <= Z.of_nat fuel ->
  exists elems : list T,
    range_for fuel (ContainerSlice.begin v) (ContainerSlice.end' v) m
      = Some (Ok elems, m) /\
    range_for fuel (ContainerSlice.begin sub) (ContainerSlice.end' sub) m
      = Some (Ok (take (Z.to_nat (b - a)) (drop (Z.to_nat a) elems)), m).
Proof.
  intros Hb0 He0 Ha Hb Hctor Hsub Hfuel.
  destruct (container_ctor_in_bounds _ _ _ _ _ _ Hb0 He0 Hctor)
    as (_ & _ & _ & _ & l & Hin).
  destruct (container_subSlice_Ok _ _ _ _ _ _ _ Hin Ha Hb Hsub)
    as (_ & Hab & Hbs & Hsubeq & Hin1).
  pose proof (in_bounds_size m v l Hin) as Hvsz.
  assert (Hsz1 : Internal.size sub = b - a).
  { destruct Hin1 as ((H1 & H2 & H3) & _).
    rewrite (size_exact sub H1 H2 H3), Hsubeq. cbn. lia. }
  eexists. split; [apply (container_iteration_window m v l fuel Hin Hfuel) |].
  rewrite (container_iteration_window m sub l fuel Hin1) by size_t_lia.
  rewrite Hsz1, window_of_window by size_t_lia.
  rewrite Hsubeq. cbn [ContainerSlice.base Internal.begin_].
  destruct Hin as ((Hvb & _ & _) & _).
  replace (Z.to_nat (a + Internal.begin_ v))
    with (Z.to_nat (Internal.begin_ v) + Z.to_nat a)%nat by size_t_lia.
  reflexivity.
Qed.

End SubSliceProperties.

(** ** Further properties: views that share a store *)

Section Sharing.
Context {T : Type} `{StdLib}.
Implicit Types (m : gmap positive (list T)) (c : positive) (ptr : pointer).

(** Reading element [j] of a view that fits its store. *)
Lemma container_read_in_bounds m (v : ContainerSlice.Slice) (l : list T) (j : Z) :
  in_bounds m v l -> 0 <= j < Internal.size v ->
  exists x, l !! Z.to_nat (Internal.begin_ v + j) = Some x /\
            (let* r := ContainerSlice.at_ v j in load r) m = (Ok x, m).
Proof.
  intros Hin Hj.
  destruct (container_at_in_bounds m v l j Hin Hj) as (Hat & _ & Hlt).
  destruct Hin as ((Hb & _ & _) & Hl & _).
  destruct (load_in_range m l
              {| obj := ContainerSlice.cont_ v; pos := Internal.begin_ v + j |})
    as (x & Hx & Hload); [exact Hl | cbn; size_t_lia |].
  exists x. split; [exact Hx |]. unfold bind. rewrite Hat. exact Hload.
Qed.

(** X11. Two views of one container share its elements: after an
    assignment through [v1.at(i)], [v2.at(j)] reads the new value when
    both denote the same absolute position ([begin1 + i = begin2 + j])
    and reads what it read before otherwise; [v2] is still the view its
    constructor returns. *)
Theorem write_through_one_view_read_through_another m c (b1 e1 b2 e2 : Z)
    (v1 v2 : ContainerSlice.Slice) (i j : Z) (y : T) :
  is_size_t b1 -> is_size_t e1 -> is_size_t b2 -> is_size_t e2 ->
  ContainerSlice.Slice_ctor c b1 e1 m = (Ok v1, m) ->
  ContainerSlice.Slice_ctor c b2 e2 m = (Ok v2, m) ->
  0 <= i < Internal.size v1 -> 0 <= j < Internal.size v2 ->
  exists m',
    (let* r := ContainerSlice.at_ v1 i in assign r y) m = (Ok tt, m') /\
    ContainerSlice.Slice_ctor c b2 e2 m' = (Ok v2, m') /\
    (b1 + i = b2 + j ->
       (let* r := ContainerSlice.at_ v2 j in load r) m' = (Ok y, m')) /\
    (b1 + i <> b2 + j ->
       exists x,
         (let* r := ContainerSlice.at_ v2 j in load r) m = (Ok x, m) /\
         (let* r := ContainerSlice.at_ v2 j in load r) m' = (Ok x, m')).
Proof.
  intros Hb1 He1 Hb2 He2 Hc1 Hc2 Hi Hj.
  destruct (container_ctor_in_bounds _ _ _ _ _ _ Hb1 He1 Hc1)
    as (_ & Hcont1 & Hvb1 & _ & l & Hin1).
  destruct (container_ctor_in_bounds _ _ _ _ _ _ Hb2 He2 Hc2)
    as (_ & Hcont2 & Hvb2 & Hve2 & l2 & Hin2).
  assert (l2 = l) as ->.
  { destruct Hin1 as (_ & Hl1 & _), Hin2 as (_ & Hl2 & _). congruence. }
  destruct (container_at_in_bounds m v1 l i Hin1 Hi) as (Hat1 & _ & Hlt1).
  pose proof Hin1 as ((Hb1' & _ & _) & Hl & _).
  pose proof Hin2 as (Hbounds2 & _ & Hle2).
  rewrite Hcont1 in *. rewrite Hvb1 in *.
  set (n := Z.to_nat (b1 + i)).
  exists (<[c := <[n := y]> l]> m).
  assert (Hin2' : in_bounds (<[c := <[n := y]> l]> m) v2 (<[n := y]> l)).
  { split; [exact Hbounds2 |]. split; [rewrite Hcont2; apply lookup_insert_eq |].
    rewrite length_insert. exact Hle2. }
  split.
  { unfold bind. rewrite Hat1.
    rewrite (assign_in_range m l {| obj := c; pos := b1 + i |} y Hl) by (cbn; size_t_lia).
    reflexivity. }
  split.
  { pose proof (in_bounds_ctor _ v2 _ Hin2') as Hk.
    rewrite Hcont2, Hvb2, Hve2 in Hk. exact Hk. }
  destruct (container_read_in_bounds _ v2 _ j Hin2' Hj) as (x' & Hx' & Hread').
  rewrite Hvb2 in Hx'.
  split.
  - intros Hsame. rewrite Hread'. f_equal. f_equal.
    replace (Z.to_nat (b2 + j)) with n in Hx' by (subst n; lia).
    rewrite list_lookup_insert_eq in Hx' by (subst n; size_t_lia).
    congruence.
  - intros Hdiff.
    destruct (container_read_in_bounds m v2 l j Hin2 Hj) as (x & Hx & Hread).
    rewrite Hvb2 in Hx.
    exists x. split; [exact Hread |]. rewrite Hread'. f_equal. f_equal.
    rewrite list_lookup_insert_ne in Hx' by (subst n; size_t_lia).
    congruence.
Qed.

(** X12. On a pointer view whose array reaches up to [ptr + end],
    [at(i)] with [i < size()] is a reference to array element
    [ptr + begin + i]: reading through it yields that element, and an
    assignment through it replaces that element and no other. *)
Theorem pointer_at_is_array_at_offset m (q : place) (l : list T) (begin end' : Z)
    (w : PointerSlice.Slice) (i : Z) :
  is_size_t begin -> is_size_t end' ->
  PointerSlice.Slice_ctor (pointer_to q) begin end' m = (Ok w, m) ->
  m !! obj q = Some l -> 0 <= pos q -> pos q + end' <= Z.of_nat (length l) ->
  0 <= i < Internal.size w ->
  PointerSlice.at_ w i m = (Ok {| obj := obj q; pos := pos q + (begin + i) |}, m) /\
  (exists x : T,
     element m (obj q) (Z.to_nat (pos q + (begin + i))) = Some x /\
     (let* r := PointerSlice.at_ w i in load r) m = (Ok x, m)) /\
  (forall y : T, exists m',
     (let* r := PointerSlice.at_ w i in assign r y) m = (Ok tt, m') /\
     element m' (obj q) (Z.to_nat (pos q + (begin + i))) = Some y /\
     forall c' k, c' <> obj q \/ k <> Z.to_nat (pos q + (begin + i)) ->
       element m' c' k = element m c' k).
Proof.
  intros Hb He Hctor Hl Hpos Hle Hi.
  destruct (pointer_ctor_bounds _ _ _ _ _ _ Hb He Hctor)
    as (_ & Hp & Hwb & Hwe & (Hb' & He' & Hlt) & _).
  rewrite (size_exact w Hb' He' Hlt), Hwb, Hwe in Hi.
  assert (Hat : PointerSlice.at_ w i m
                = (Ok {| obj := obj q; pos := pos q + (begin + i) |}, m)).
  { rewrite pointer_at_unfold, (size_exact w Hb' He' Hlt), Hwb, Hwe, Hp.
    destruct (Z.geb_spec i (end' - begin)); [lia |].
    rewrite size_t_wrap_small by size_t_lia.
    unfold ptr_index. rewrite Hl.
    destruct (Z.leb_spec 0 (pos q + (begin + i))); [| size_t_lia].
    destruct (Z.ltb_spec (pos q + (begin + i)) (Z.of_nat (length l))); [| lia].
    reflexivity. }
  assert (Hin : 0 <= pos q + (begin + i) < Z.of_nat (length l)) by size_t_lia.
  split; [exact Hat |]. split.
  - destruct (load_in_range m l {| obj := obj q; pos := pos q + (begin + i) |} Hl Hin)
      as (x & Hx & Hload).
    exists x. split; [unfold element; rewrite Hl; exact Hx |].
    unfold bind. rewrite Hat. exact Hload.
  - intros y.
    exists (<[obj q := <[Z.to_nat (pos q + (begin + i)) := y]> l]> m).
    split.
    + unfold bind. rewrite Hat.
      exact (assign_in_range m l {| obj := obj q; pos := pos q + (begin + i) |} y Hl Hin).
    + apply element_after_assign; [exact Hl | lia].
Qed.

(** Incrementing an iterator [n] times advances it by [n]. *)
Lemma advance_iter (p : place) (n : nat) :
  Nat.iter n (fun it => advance it 1) p = advance p (Z.of_nat n).
Proof.
  induction n as [| n IH].
  - destruct p as [o k]. unfold advance. cbn. f_equal. lia.
  - rewrite Nat.iter_succ, IH. unfold advance. cbn [obj pos]. f_equal. lia.
Qed.

(** X13. The end iterator of a container view is its begin iterator
    incremented [size()] times, differs from it, and denotes the
    position just behind the view: for a view that ends where the
    container ends, dereferencing [end()] is undefined, and the index
    [size()] it corresponds to is refused by [at]. *)
Theorem end_is_one_past_the_last m c (l : list T) (begin end' : Z)
    (v : ContainerSlice.Slice) :
  is_size_t begin -> is_size_t end' ->
  ContainerSlice.Slice_ctor c begin end' m = (Ok v, m) ->
  m !! c = Some l ->
  Nat.iter (Z.to_nat (Internal.size v)) (it_incr (T:=T)) (ContainerSlice.begin v)
    = ContainerSlice.end' v /\
  it_eqb (T:=T) (ContainerSlice.begin v) (ContainerSlice.end' v) = false /\
  fails_with IndexOutOfRange (fst (ContainerSlice.at_ v (Internal.size v) m)) = true /\
  (end' = Z.of_nat (length l) ->
     (let* r := it_deref (ContainerSlice.end' v) in load r) m = (Undefined, m)).
Proof.
  intros Hb He Hctor Hl.
  destruct (container_ctor_in_bounds _ _ _ _ _ _ Hb He Hctor)
    as (_ & Hc & Hvb & Hve & l' & (Hb' & He' & Hlt) & Hl' & Hle).
  pose proof (size_exact v Hb' He' Hlt) as Hsz.
  split; [| split; [| split]].
  - cbn [it_incr container_iterator]. rewrite advance_iter.
    unfold ContainerSlice.begin, ContainerSlice.end', advance, cont_begin. cbn [obj pos].
    f_equal. size_t_lia.
  - cbn [it_eqb container_iterator].
    unfold place_eqb, ContainerSlice.begin, ContainerSlice.end', advance, cont_begin.
    cbn [obj pos].
    destruct (Z.eqb_spec (0 + Internal.begin_ v) (0 + Internal.end_ v)); [lia |].
    apply andb_false_r.
  - rewrite container_at_unfold.
    destruct (Z.geb_spec (Internal.size v) (Internal.size v)); [reflexivity | lia].
  - intros Hend.
    cbn [it_deref container_iterator].
    unfold bind, ptr_index, ContainerSlice.end', advance, cont_begin. cbn [obj pos].
    rewrite Hc, Hl.
    destruct (Z.ltb_spec (0 + Internal.end_ v + 0) (Z.of_nat (length l))); [lia |].
    rewrite andb_false_r. reflexivity.
Qed.

(** X14. The two specialisations agree: the pointer view made from
    the address of a container's first element behaves like the
    container view with the same bounds, for [at] at every index and
    for traversal. *)
Theorem pointer_view_of_container_data m c (begin end' : Z)
    (v : ContainerSlice.Slice) (w : PointerSlice.Slice) :
  is_size_t begin -> is_size_t end' ->
  ContainerSlice.Slice_ctor c begin end' m = (Ok v, m) ->
  PointerSlice.Slice_ctor (pointer_to (cont_begin c)) begin end' m = (Ok w, m) ->
  (forall i, 0 <= i -> PointerSlice.at_ w i m = ContainerSlice.at_ v i m) /\
  (forall fuel : nat,
     range_for fuel (PointerSlice.begin w) (PointerSlice.end' w) m
       = range_for fuel (ContainerSlice.begin v) (ContainerSlice.end' v) m).
Proof.
  intros Hb He Hcv Hcw.
  destruct (container_ctor_in_bounds _ _ _ _ _ _ Hb He Hcv)
    as (_ & Hc & Hvb & Hve & l & Hin).
  destruct (pointer_ctor_Ok _ _ _ _ _ _ Hcw) as (_ & -> & _ & _).
  split.
  - intros i Hi.
    destruct (Z.le_gt_cases (Internal.size v) i) as [Hout | Hlt].
    + rewrite container_at_unfold, pointer_at_unfold.
      cbn [PointerSlice.base PointerSlice.ptr_].
      assert (Hs : Internal.size {| Internal.begin_ := begin; Internal.end_ := end' |}
                   = Internal.size v).
      { unfold Internal.size. cbn. rewrite Hvb, Hve. reflexivity. }
      rewrite Hs. destruct (Z.geb_spec i (Internal.size v)); [reflexivity | lia].
    + destruct (container_at_in_bounds m v l i Hin (conj Hi Hlt)) as (-> & _ & Hpos).
      pose proof Hin as ((Hb' & He' & Hlt') & Hl & _).
      rewrite (size_exact v Hb' He' Hlt') in Hlt.
      rewrite pointer_at_unfold. cbn [PointerSlice.base PointerSlice.ptr_ Internal.begin_].
      rewrite size_exact by (cbn; size_t_lia). cbn [Internal.begin_ Internal.end_].
      destruct (Z.geb_spec i (end' - begin)); [lia |].
      rewrite size_t_wrap_small by size_t_lia.
      unfold ptr_index, cont_begin, advance. cbn [obj pos].
      rewrite <- Hc, Hl, <- Hvb.
      destruct (Z.leb_spec 0 (0 + (Internal.begin_ v + i))); [| size_t_lia].
      destruct (Z.ltb_spec (0 + (Internal.begin_ v + i)) (Z.of_nat (length l))); [| lia].
      reflexivity.
  - intros fuel.
    unfold PointerSlice.begin, PointerSlice.end', ptr_add.
    cbn [PointerSlice.base PointerSlice.ptr_ Internal.begin_ Internal.end_].
    rewrite range_for_pointers.
    unfold ContainerSlice.begin, ContainerSlice.end'. rewrite Hc, Hvb, Hve. reflexivity.
Qed.

End Sharing.

(** ** Further properties: pointer sub-slices and outdated views *)

Section Outdated.
Context {T : Type} `{StdLib}.
Implicit Types (m : gmap positive (list T)) (c : positive) (ptr : pointer).

(** X15. Sub-slices of a pointer view compose by adding offsets and
    keep the pointer: when [w.subSlice(a, b)] is [s1], every
    [s1.subSlice(c, d)] that succeeds is [w.subSlice(a + c, a + d)],
    the converse holds for [d <= b - a], and [d > b - a] fails with
    InvalidRange. *)
Theorem pointer_subSlice_of_subSlice m ptr (begin end' : Z) (w s1 : PointerSlice.Slice)
    (a b c d : Z) :
  is_size_t begin -> is_size_t end' ->
  is_size_t a -> is_size_t b -> is_size_t c -> is_size_t d ->
  PointerSlice.Slice_ctor (T:=T) ptr begin end' m = (Ok w, m) ->
  PointerSlice.subSlice (T:=T) w a b m = (Ok s1, m) ->
  PointerSlice.ptr_ s1 = ptr /\
  (forall s2, PointerSlice.subSlice (T:=T) s1 c d m = (Ok s2, m) ->
     PointerSlice.subSlice (T:=T) w (a + c) (a + d) m = (Ok s2, m)) /\
  (forall s2, d <= b - a ->
     PointerSlice.subSlice (T:=T) w (a + c) (a + d) m = (Ok s2, m) ->
     PointerSlice.subSlice (T:=T) s1 c d m = (Ok s2, m)) /\
  (b - a < d ->
     fails_with InvalidRange (fst (PointerSlice.subSlice (T:=T) s1 c d m)) = true).
Proof.
  intros Hb0 He0 Ha Hb Hc Hd Hctor Hsub.
  destruct (pointer_ctor_bounds _ _ _ _ _ _ Hb0 He0 Hctor)
    as (_ & Hp & _ & _ & Hbounds & q & Hq).
  destruct (pointer_subSlice_Ok _ _ _ _ _ _ Hbounds Ha Hb Hsub)
    as (_ & Hab & Hbs & -> & Hbounds1).
  split; [exact Hp |]. split; [| split].
  - intros s2 H2.
    rewrite pointer_subSlice_unfold in *.
    cbn [PointerSlice.base PointerSlice.ptr_] in *.
    destruct (Internal.calculateSubSliceBounds _ c d) as [[x y] | e |] eqn:E;
      [| discriminate | discriminate].
    cbn [fst snd] in H2.
    pose proof (pointer_ctor_Ok _ _ _ _ _ _ H2) as (_ & _ & Hxy & _).
    destruct (calculateSubSliceBounds_compose w a b c d x y Hbounds Ha Hb Hc Hd Hab Hbs Hxy)
      as (Hfwd & _).
    rewrite (Hfwd E). exact H2.
  - intros s2 Hdb H2.
    rewrite pointer_subSlice_unfold in *.
    cbn [PointerSlice.base PointerSlice.ptr_] in *.
    destruct (Internal.calculateSubSliceBounds w (a + c) (a + d)) as [[x y] | e |] eqn:E;
      [| discriminate | discriminate].
    cbn [fst snd] in H2.
    pose proof (pointer_ctor_Ok _ _ _ _ _ _ H2) as (_ & _ & Hxy & _).
    destruct (calculateSubSliceBounds_compose w a b c d x y Hbounds Ha Hb Hc Hd Hab Hbs Hxy)
      as (_ & Hbwd).
    rewrite (Hbwd Hdb E). exact H2.
  - intros Hbig.
    destruct (pointer_subSlice_decides m
                {| PointerSlice.base :=
                     {| Internal.begin_ := a + Internal.begin_ w;
                        Internal.end_ := b + Internal.begin_ w |};
                   PointerSlice.ptr_ := PointerSlice.ptr_ w |} q c d Hbounds1)
      as [(_ & Hd' & _) | (_ & _ & Hf)]; [cbn; congruence | exact Hc | exact Hd | | exact Hf].
    exfalso. destruct Hbounds1 as (H1 & H2 & H3).
    rewrite (size_exact _ H1 H2 H3) in Hd'. cbn in Hd'. lia.
Qed.

(** Walking towards a position that lies behind the end of the object
    runs into the end of the object. *)
Lemma range_for_overrun m (o : positive) (l : list T) (e : Z) :
  m !! o = Some l -> Z.of_nat (length l) < e ->
  forall (n fuel : nat) (p : Z),
    0 <= p -> p < e -> Z.of_nat (length l) - p <= Z.of_nat n -> (n < fuel)%nat ->
    range_for fuel {| obj := o; pos := p |} {| obj := o; pos := e |} m
      = Some (Undefined, m).
Proof.
  intros Hl He. induction n as [| n IH]; intros fuel p Hp Hpe Hn Hfuel;
    (destruct fuel as [| fuel]; [lia |]);
    cbn [range_for it_eqb it_incr it_deref container_iterator];
    unfold place_eqb; cbn [obj pos];
    (destruct (Z.eqb_spec p e); [lia |]); rewrite andb_false_r.
  - unfold bind, ptr_index. cbn [obj pos]. rewrite Hl.
    destruct (Z.ltb_spec (p + 0) (Z.of_nat (length l))); [lia |].
    rewrite andb_false_r. reflexivity.
  - destruct (Z.lt_ge_cases p (Z.of_nat (length l))) as [Hin | Hout].
    + destruct (lookup_lt_is_Some_2 l (Z.to_nat p)) as [x Hx]; [lia |].
      unfold bind, ptr_index, load, advance. cbn [obj pos]. rewrite Hl.
      destruct (Z.leb_spec 0 (p + 0)); [| lia].
      destruct (Z.ltb_spec (p + 0) (Z.of_nat (length l))); [| lia].
      cbn [andb obj pos]. rewrite Hl.
      replace (p + 0) with p by lia. rewrite Hx.
      destruct (Z.leb_spec 0 p); [| lia].
      rewrite IH by lia. reflexivity.
    + unfold bind, ptr_index. cbn [obj pos]. rewrite Hl.
      destruct (Z.ltb_spec (p + 0) (Z.of_nat (length l))); [lia |].
      rewrite andb_false_r. reflexivity.
Qed.

(** X16. The iterators are not checked the way [at] is: when the
    container has shrunk below the view's [end_], a traversal from
    [begin()] to [end()] runs off the container (undefined behaviour),
    while [at] on the same view still answers every index with a
    reference into the container or an exception. *)
Theorem iterators_of_outdated_view_overrun m (v : ContainerSlice.Slice) (l : list T)
    (fuel : nat) :
  bounds_ok v ->
  m !! ContainerSlice.cont_ v = Some l ->
  Z.of_nat (length l) < Internal.end_ v ->
  Internal.size v <= Z.of_nat fuel ->
  range_for fuel (ContainerSlice.begin v) (ContainerSlice.end' v) m
    = Some (Undefined, m) /\
  forall i, fst (ContainerSlice.at_ v i m) <> Undefined.
Proof.
  intros (Hb & He & Hlt) Hl Hshort Hfuel.
  rewrite (size_exact v Hb He Hlt) in Hfuel.
  split.
  - unfold ContainerSlice.begin, ContainerSlice.end', advance, cont_begin. cbn [obj pos].
    apply (range_for_overrun m _ l _ Hl) with
      (n := Z.to_nat (Z.of_nat (length l) - Internal.begin_ v)); size_t_lia.
  - intros i. rewrite container_at_unfold.
    destruct (i >=? Internal.size v); [discriminate |].
    unfold cont_at. rewrite Hl.
    destruct (size_t_wrap (Internal.begin_ v + i) <? Z.of_nat (length l)); discriminate.
Qed.

End Outdated.

(** ** The further properties on the examples of the documentation *)

Lemma one_two_bounds_ok : bounds_ok one_two.
Proof. repeat split; cbn; size_t_lia. Qed.

Lemma size_t_5 : is_size_t 5.
Proof. size_t_lia. Qed.

Lemma size_t_4 : is_size_t 4.
Proof. size_t_lia. Qed.

Lemma whole_vec_constructed :
  ContainerSlice.Slice_ctor 1 0 5 vec_store = (Ok whole_vec, vec_store).
Proof. reflexivity. Qed.

Lemma at_addition_cannot_overflow_witness :
  size_t_wrap (Internal.begin_ one_two + 1) = Internal.begin_ one_two + 1 /\
  Internal.begin_ one_two + 1 < Internal.end_ one_two.
Proof.
  apply (at_addition_cannot_overflow one_two 1 one_two_bounds_ok);
    [discriminate | reflexivity].
Defined.

Lemma container_at_never_out_of_container_witness :
  fst (ContainerSlice.at_ (H:=libstdcxx) one_two 1 shrunk_vec_store)
    = Throw (out_of_range (container_what (StdLib:=libstdcxx))).
Proof.
  destruct (container_at_never_out_of_container (H:=libstdcxx)
              shrunk_vec_store one_two [0; 1] 1 eq_refl)
    as [(e & Hat & _) | (p & Hat & _)]; reflexivity.
Defined.

Lemma every_container_view_fits_witness :
  in_bounds vec_store one_two [0; 1; 2; 3; 4] /\
  1 <= Internal.size one_two <= Z.of_nat (length [0; 1; 2; 3; 4]).
Proof.
  apply (proj1 (every_container_view_fits vec_store 1%positive [0; 1; 2; 3; 4] one_two
                  eq_refl ltac:(cbn; size_t_lia)) 1 3 size_t_1 size_t_3).
  reflexivity.
Defined.

Lemma makeSlice_whole_views_everything_witness :
  exists v : ContainerSlice.Slice,
    makeSlice_whole 1 vec_store = (Ok v, vec_store) /\
    Internal.size v = 5 /\
    range_for 5 (ContainerSlice.begin v) (ContainerSlice.end' v) vec_store
      = Some (Ok [0; 1; 2; 3; 4], vec_store).
Proof.
  destruct (makeSlice_whole_views_everything (H:=libstdcxx) vec_store 1%positive
              [0; 1; 2; 3; 4] eq_refl ltac:(cbn; lia) ltac:(cbn; size_t_lia))
    as (v & Hmk & Hsz & _ & Hwalk).
  exists v. split; [exact Hmk |]. split; [exact Hsz |].
  apply Hwalk. cbn. lia.
Defined.

Lemma makeSliceFrom_views_the_tail_witness :
  (exists v : ContainerSlice.Slice,
     makeSliceFrom 1 3 vec_store = (Ok v, vec_store) /\
     range_for 5 (ContainerSlice.begin v) (ContainerSlice.end' v) vec_store
       = Some (Ok [3; 4], vec_store)) /\
  fails_with InvalidRange (fst (makeSliceFrom 1 5 vec_store)) = true.
Proof.
  split.
  - destruct (proj1 (makeSliceFrom_views_the_tail vec_store 1%positive [0; 1; 2; 3; 4] 3
                       eq_refl size_t_3 ltac:(cbn; size_t_lia)) ltac:(reflexivity))
      as (v & Hmk & _ & Hwalk).
    exists v. split; [exact Hmk |]. apply (Hwalk 5%nat). cbn. lia.
  - apply (proj2 (makeSliceFrom_views_the_tail vec_store 1%positive [0; 1; 2; 3; 4] 5
                    eq_refl size_t_5 ltac:(cbn; size_t_lia))).
    discriminate.
Defined.

Lemma makeSliceUntil_views_the_head_witness :
  (exists v : ContainerSlice.Slice,
     makeSliceUntil 1 2 vec_store = (Ok v, vec_store) /\
     range_for 2 (ContainerSlice.begin v) (ContainerSlice.end' v) vec_store
       = Some (Ok [0; 1], vec_store)) /\
  fails_with InvalidRange (fst (makeSliceUntil 1 0 vec_store)) = true.
Proof.
  split.
  - destruct (proj1 (makeSliceUntil_views_the_head vec_store 1%positive [0; 1; 2; 3; 4] 2
                       eq_refl size_t_2) ltac:(reflexivity) ltac:(discriminate))
      as (v & Hmk & _ & Hwalk).
    exists v. split; [exact Hmk |]. apply (Hwalk 2%nat). discriminate.
  - apply (proj2 (makeSliceUntil_views_the_head vec_store 1%positive [0; 1; 2; 3; 4] 0
                    eq_refl size_t_0)).
    left. reflexivity.
Defined.

Lemma makeSliceUntil_ptr_views_from_the_pointer_witness :
  fails_with InvalidRange (fst (makeSliceUntil_ptr nullptr 0 vec_store)) = true /\
  fails_with NullPointer (fst (makeSliceUntil_ptr nullptr 2 vec_store)) = true.
Proof.
  split.
  - apply (proj1 (makeSliceUntil_ptr_views_from_the_pointer vec_store nullptr
                    {| obj := 1; pos := 0 |} 0 size_t_0)).
    reflexivity.
  - apply (proj2 (makeSliceUntil_ptr_views_from_the_pointer vec_store nullptr
                    {| obj := 1; pos := 0 |} 2 size_t_2)).
    reflexivity.
Defined.

Lemma subSlice_succeeds_iff_inside_witness :
  (succeeds (fst (ContainerSlice.subSlice one_two 0 2 vec_store)) = true
     <-> 0 < 2 /\ 2 <= Internal.size one_two) /\
  fails_with InvalidRange (fst (ContainerSlice.subSlice one_two 0 3 vec_store)) = true.
Proof.
  split.
  - apply (proj1 (subSlice_succeeds_iff_inside (T:=Z)) vec_store 1%positive 1 3 one_two 0 2
             size_t_1 size_t_3 size_t_0 size_t_2 one_two_constructed).
  - apply (proj1 (subSlice_succeeds_iff_inside (T:=Z)) vec_store 1%positive 1 3 one_two 0 3
             size_t_1 size_t_3 size_t_0 size_t_3 one_two_constructed).
    reflexivity.
Defined.

Lemma subSlice_of_subSlice_witness :
  ContainerSlice.subSlice whole_vec (1 + 1) (1 + 2) vec_store
    = ContainerSlice.subSlice
        {| ContainerSlice.base := {| Internal.begin_ := 1; Internal.end_ := 4 |};
           ContainerSlice.cont_ := 1%positive |} 1 2 vec_store.
Proof.
  apply (proj1 (subSlice_of_subSlice vec_store 1%positive 0 5 whole_vec _ 1 4 1 2
                  size_t_0 size_t_5 size_t_1 size_t_4 size_t_1 size_t_2
                  whole_vec_constructed eq_refl)).
  reflexivity.
Defined.

Lemma subSlice_iteration_is_window_witness :
  exists elems : list Z,
    range_for 5 (ContainerSlice.begin whole_vec) (ContainerSlice.end' whole_vec) vec_store
      = Some (Ok elems, vec_store) /\
    range_for 5 (ContainerSlice.begin one_two) (ContainerSlice.end' one_two) vec_store
      = Some (Ok (take (Z.to_nat (3 - 1)) (drop (Z.to_nat 1) elems)), vec_store).
Proof.
  apply (subSlice_iteration_is_window vec_store 1%positive 0 5 whole_vec one_two 1 3 5%nat
           size_t_0 size_t_5 size_t_1 size_t_3 whole_vec_constructed eq_refl).
  discriminate.
Defined.

Lemma write_through_one_view_read_through_another_witness :
  exists m',
    (let* r := ContainerSlice.at_ (H:=libstdcxx) one_two 1 in assign r 9) vec_store
      = (Ok tt, m') /\
    (let* r := ContainerSlice.at_ (H:=libstdcxx) two_four 0 in load r) m' = (Ok 9, m').
Proof.
  destruct (write_through_one_view_read_through_another (H:=libstdcxx)
              vec_store 1%positive 1 3 2 4 one_two two_four 1 0 9
              size_t_1 size_t_3 size_t_2 size_t_4 one_two_constructed eq_refl
              ltac:(split; [discriminate | reflexivity])
              ltac:(split; [discriminate | reflexivity]))
    as (m' & Hw & _ & Hsame & _).
  exists m'. split; [exact Hw | apply Hsame; reflexivity].
Defined.

Lemma pointer_at_is_array_at_offset_witness :
  PointerSlice.at_ ptr_one_two 0 vec_store
    = (Ok {| obj := 1; pos := 0 + (1 + 0) |}, vec_store).
Proof.
  apply (pointer_at_is_array_at_offset vec_store {| obj := 1; pos := 0 |} [0; 1; 2; 3; 4]
           1 3 ptr_one_two 0 size_t_1 size_t_3 ptr_one_two_constructed eq_refl);
    [discriminate | discriminate | split; [discriminate | reflexivity]].
Defined.

Lemma end_is_one_past_the_last_witness :
  (let* r := it_deref (ContainerSlice.end' three_four) in load r) vec_store
    = (Undefined, vec_store).
Proof.
  apply (end_is_one_past_the_last (H:=libstdcxx) vec_store 1%positive [0; 1; 2; 3; 4] 3 5
           three_four size_t_3 size_t_5 eq_refl eq_refl).
  reflexivity.
Defined.

Lemma pointer_view_of_container_data_witness :
  PointerSlice.at_ ptr_one_two 1 vec_store
    = ContainerSlice.at_ (H:=libstdcxx) one_two 1 vec_store /\
  range_for 2 (PointerSlice.begin ptr_one_two) (PointerSlice.end' ptr_one_two) vec_store
    = range_for 2 (ContainerSlice.begin one_two) (ContainerSlice.end' one_two) vec_store.
Proof.
  destruct (pointer_view_of_container_data (H:=libstdcxx) vec_store 1%positive 1 3
              one_two ptr_one_two size_t_1 size_t_3 one_two_constructed
              ptr_one_two_constructed)
    as (Hat & Hwalk).
  split; [apply Hat; discriminate | apply Hwalk].
Defined.

Lemma pointer_subSlice_of_subSlice_witness :
  PointerSlice.subSlice ptr_whole_vec (1 + 1) (1 + 2) vec_store
    = PointerSlice.subSlice
        {| PointerSlice.base := {| Internal.begin_ := 1; Internal.end_ := 4 |};
           PointerSlice.ptr_ := vec_data |} 1 2 vec_store.
Proof.
  destruct (pointer_subSlice_of_subSlice vec_store vec_data 0 5 ptr_whole_vec _ 1 4 1 2
              size_t_0 size_t_5 size_t_1 size_t_4 size_t_1 size_t_2 eq_refl eq_refl)
    as (_ & Hfwd & _).
  apply Hfwd. reflexivity.
Defined.

Lemma iterators_of_outdated_view_overrun_witness :
  range_for 2 (ContainerSlice.begin one_two) (ContainerSlice.end' one_two) shrunk_vec_store
    = Some (Undefined, shrunk_vec_store) /\
  fst (ContainerSlice.at_ (H:=libstdcxx) one_two 1 shrunk_vec_store) <> Undefined.
Proof.
  destruct (iterators_of_outdated_view_overrun (H:=libstdcxx) shrunk_vec_store one_two
              [0; 1] 2 one_two_bounds_ok eq_refl ltac:(reflexivity) ltac:(discriminate))
    as (Hwalk & Hat).
  split; [exact Hwalk | apply Hat].
Defined.
